(** * fixedincomelib.market.registries

    A shallow embedding of [src/fixedincomelib/market/registries.py]: the
    process-wide registries for indices, index fixings, data conventions and
    data identifiers, with the properties stated for them.

    Python objects become values of [pyval]; the mutable [dict] objects the
    module passes around (fixing series, convention specs) live on an
    explicit heap and are referred to by location, so that aliasing between
    a caller's dict and a registry entry is visible. Exceptions are results
    of an error monad over the world state: a raised exception keeps every
    mutation made before it, as in Python. *)

From Stdlib Require Import ZArith String Ascii List.
From Stdlib Require Import Floats.SpecFloat.
From stdpp Require Import base option gmap strings list.

Open Scope string_scope.

(** ** Strings: [str.upper], [str.lower], [str.split] on ASCII keys *)

Module Str.

Definition is_lower_ascii (c : ascii) : bool :=
  let n := N_of_ascii c in (97 <=? n)%N && (n <=? 122)%N.

Definition is_upper_ascii (c : ascii) : bool :=
  let n := N_of_ascii c in (65 <=? n)%N && (n <=? 90)%N.

Definition upper_ascii (c : ascii) : ascii :=
  if is_lower_ascii c then ascii_of_N (N_of_ascii c - 32) else c.

Definition lower_ascii (c : ascii) : ascii :=
  if is_upper_ascii c then ascii_of_N (N_of_ascii c + 32) else c.

(** [s.upper()] *)
Fixpoint upper (s : string) : string :=
  match s with
  | EmptyString => EmptyString
  | String c s' => String (upper_ascii c) (upper s')
  end.

(** [s.lower()] *)
Fixpoint lower (s : string) : string :=
  match s with
  | EmptyString => EmptyString
  | String c s' => String (lower_ascii c) (lower s')
  end.

(** [s.split(sep)] for a one-character separator. *)
Fixpoint split (sep : ascii) (s : string) : list string :=
  match s with
  | EmptyString => [EmptyString]
  | String c s' =>
      if Ascii.eqb c sep then EmptyString :: split sep s'
      else match split sep s' with
           | [] => [String c EmptyString]
           | h :: t => String c h :: t
           end
  end.

(** [str(key).split('-')[-1]] *)
Definition last_segment (key : string) : string :=
  List.last (split "-" key) EmptyString.

(** [os.path.join(root, name)] for a relative [name]. *)
Definition path_join (root name : string) : string :=
  root ++ "/" ++ name.

End Str.

(** ** Python values *)

(** Identity of a mutable [dict] object. *)
Definition loc := positive.

(** [fixedincomelib.date.Date]: a calendar date, hashed and compared by value. *)
Record Date := mkDate { year : Z; month : Z; day : Z }.

#[global] Instance Date_eq_dec : EqDecision Date.
Proof. solve_decision. Defined.

#[global] Instance Date_countable : Countable Date.
Proof.
  refine (inj_countable' (fun d => (year d, month d, day d))
                         (fun t => mkDate t.1.1 t.1.2 t.2) _).
  by intros [].
Defined.

(** Keys of the dict objects of this module: field names of a convention
    spec, or the dates of a fixing series. *)
Inductive pykey :=
| KStr (s : string)
| KDate (d : Date).

#[global] Instance pykey_eq_dec : EqDecision pykey.
Proof. solve_decision. Defined.

#[global] Instance pykey_countable : Countable pykey.
Proof.
  refine (inj_countable' (fun k => match k with KStr s => inl s | KDate d => inr d end)
                         (fun x => match x with inl s => KStr s | inr d => KDate d end) _).
  by intros [].
Defined.

(** An index object built by the QuantLib catalogue: the class it was built
    from and the tenor it was given, if any. *)
Record ql_index := mkIndex { index_class : string; index_tenor : option string }.

(** The values the registries store and receive. A Python [float] is an
    IEEE-754 binary64 number ([spec_float]); the module only stores and
    returns floats, it never computes with them. *)
Inductive pyval :=
| PNone
| PStr (s : string)
| PInt (z : Z)
| PFloat (x : spec_float)
| PDict (l : loc)                    (* reference to a dict object *)
| PIndex (i : ql_index)              (* object built by a QuantLib index class *)
| PObj (cls name : string)           (* object built by a convention constructor *)
| PFunc (name : string).             (* a callable, such as a convention constructor *)

Abbreviation dict := (gmap pykey pyval).

(** ** Errors

    The exceptions of the module, named by the place that raises them. *)
Inductive error :=
| DuplicateKey       (* base [register]: the key is already present *)
| NotFound           (* base [get]/[erase], [IndexRegistry.get], [get_fixing] *)
| UnknownIndexType   (* [KeyError] of registries.py line 25 *)
| ConstructionError  (* [Exception(err_msg)] of registries.py line 33 *)
| MissingField       (* [KeyError] of a dict subscript or [pop] on an absent key *)
| MalformedRecord    (* a CSV row without the column, or [strptime]/[float] failing *)
| TypeError          (* the value does not support the operation *)
| ExternalError.     (* an exception raised inside an external collaborator *)

#[global] Instance error_eq_dec : EqDecision error.
Proof. solve_decision. Defined.

Inductive result (A : Type) :=
| Ok (a : A)
| Raise (e : error).
Arguments Ok {A} a.
Arguments Raise {A} e.

(** ** The world: heap of dict objects and the registry singletons *)

(** A call the module makes into a registry of constructors; kept as a
    ghost log so that "before any lookup" can be stated. *)
Inductive call :=
| Lookup (namespace : string) (key : pyval)
| Construct (func key : string).

Record world := mkWorld {
  heap : gmap loc dict;                      (* the dict objects *)
  stores : gmap string (gmap string pyval);  (* namespace ↦ [_map] of its singleton *)
  calls : list call                          (* ghost: lookups and constructor calls *)
}.

Definition empty_world : world := mkWorld ∅ ∅ [].

(** [_map] of the registry singleton of a namespace. *)
Definition store_of (ns : string) (w : world) : gmap string pyval :=
  default ∅ (stores w !! ns).

Definition M (A : Type) : Type := world -> result A * world.

#[global] Instance M_ret : MRet M := fun A a w => (Ok a, w).

#[global] Instance M_bind : MBind M := fun A B k m w =>
  match m w with
  | (Ok a, w') => k a w'
  | (Raise e, w') => (Raise e, w')
  end.

Definition raise {A} (e : error) : M A := fun w => (Raise e, w).

(** The three ways a world changes. *)
Definition with_store (ns : string) (m : gmap string pyval) (w : world) : world :=
  mkWorld (heap w) (<[ns := m]> (stores w)) (calls w).

Definition with_dict (l : loc) (d : dict) (w : world) : world :=
  mkWorld (<[l := d]> (heap w)) (stores w) (calls w).

Definition with_call (c : call) (w : world) : world :=
  mkWorld (heap w) (stores w) (calls w ++ [c]).

Definition get_store (ns : string) : M (gmap string pyval) :=
  fun w => (Ok (store_of ns w), w).

Definition put_store (ns : string) (m : gmap string pyval) : M unit :=
  fun w => (Ok tt, with_store ns m w).

(** [self._map[key] = value] *)
Definition map_set (ns key : string) (value : pyval) : M unit :=
  m ← get_store ns; put_store ns (<[key := value]> m).

Definition log (c : call) : M unit :=
  fun w => (Ok tt, with_call c w).

(** Allocation of a new dict object with the given contents. *)
Definition alloc (d : dict) : M loc :=
  fun w => let l := fresh (dom (heap w)) in (Ok l, with_dict l d w).

(** ** Operations on Python values *)

(** The dict object behind a reference. A reference always points into the
    heap in a world reached by the operations below; the last branch is for
    totality. *)
Definition deref (l : loc) : M dict :=
  fun w => match heap w !! l with
           | Some d => (Ok d, w)
           | None => (Raise TypeError, w)
           end.

Definition update (l : loc) (d : dict) : M unit :=
  fun w => (Ok tt, with_dict l d w).

(** [k in obj] *)
Definition py_contains (obj : pyval) (k : pykey) : M bool :=
  match obj with
  | PDict l => d ← deref l; mret (bool_decide (is_Some (d !! k)))
  | _ => raise TypeError
  end.

(** [obj[k]] *)
Definition py_getitem (obj : pyval) (k : pykey) : M pyval :=
  match obj with
  | PDict l => d ← deref l;
               match d !! k with
               | Some v => mret v
               | None => raise MissingField
               end
  | _ => raise TypeError
  end.

(** [obj[k] = v] *)
Definition py_setitem (obj : pyval) (k : pykey) (v : pyval) : M unit :=
  match obj with
  | PDict l => d ← deref l; update l (<[k := v]> d)
  | _ => raise TypeError
  end.

(** [obj.pop(k)] *)
Definition py_pop (obj : pyval) (k : pykey) : M pyval :=
  match obj with
  | PDict l => d ← deref l;
               match d !! k with
               | Some v => update l (delete k d);; mret v
               | None => raise MissingField
               end
  | _ => raise TypeError
  end.

(** [obj.copy()]: a new dict object with the same items. *)
Definition py_copy (obj : pyval) : M pyval :=
  match obj with
  | PDict l => d ← deref l; l' ← alloc d; mret (PDict l')
  | _ => raise TypeError
  end.

(** ** External collaborators

    What the module calls but does not define: the QuantLib catalogue, the
    tenor classifier, the configuration, the file system with the CSV
    reader, the parsers of dates and floats, and the convention
    constructors. [None] stands for a raised exception (for [csv_rows]: for
    a file that does not exist). Constructors are functions of their
    arguments: of the key and of the items of the dict they are given. *)
Record externals := mkExternals {
  ql_hasattr : string -> bool;                        (* [getattr(ql, name)] succeeds *)
  ql_new : string -> option ql_index;                 (* [getattr(ql, name)()] *)
  ql_new_term : string -> string -> option ql_index;  (* [getattr(ql, name)(Period(tenor))] *)
  is_term : string -> option bool;                    (* [TermOrTerminationDate(s).is_term()] *)
  fixing_path : string;                               (* [get_config()['FIXING_SOURCE']] *)
  csv_rows : string -> option (list (gmap string string));  (* [csv.DictReader] on the path *)
  strptime : string -> option Date;                   (* [Date(strptime(s, '%Y-%m-%d').date())] *)
  float_of_str : string -> option spec_float;         (* [float(s)] *)
  construct : string -> string -> dict -> option pyval  (* [func(key, fields)] *)
}.

(** [func(key, value_)] *)
Definition py_call (E : externals) (func : pyval) (key : string) (arg : pyval) : M pyval :=
  match func, arg with
  | PFunc f, PDict l =>
      log (Construct f key);;
      d ← deref l;
      match construct E f key d with
      | Some obj => mret obj
      | None => raise ExternalError
      end
  | _, _ => raise TypeError
  end.

(** ** Registry (base class) *)

Module Registry.

(** Modelled from the spec: the base class [Registry] of
    [fixedincomelib.utilities] is not among the sources. Section 4.1 of
    the specification gives its contract: [register(key, value)] fails
    with DuplicateKey if the key exists, and otherwise inserts
    [(key, value)] into the store (sections 4.2 and 4.5, step "insert into
    the base store", "the raw spec stored in step 2"). The store is the
    one of the namespace: constructing a registry with the same namespace
    gives the same underlying store. *)
Definition register (ns key : string) (value : pyval) : M unit :=
  m ← get_store ns;
  if bool_decide (is_Some (m !! key)) then raise DuplicateKey
  else put_store ns (<[key := value]> m).

(** Modelled from the spec: [get(key)] fails with NotFound if the key is
    absent, and returns the stored value otherwise. Keys are compared as
    they are ("case rules vary by subclass"). The key is any Python value;
    the keys of the store are strings, and a dict is not hashable. *)
Definition get (ns : string) (key : pyval) : M pyval :=
  log (Lookup ns key);;
  m ← get_store ns;
  match key with
  | PStr k => match m !! k with
              | Some v => mret v
              | None => raise NotFound
              end
  | PDict _ => raise TypeError
  | _ => raise NotFound
  end.

(** Modelled from the spec: [erase(key)] removes an entry and fails with
    NotFound if it is absent. *)
Definition erase (ns key : string) : M unit :=
  m ← get_store ns;
  if bool_decide (is_Some (m !! key)) then put_store ns (delete key m)
  else raise NotFound.

End Registry.

(** ** IndexRegistry *)

Module IndexRegistry.

(** [__new__]: [super().__new__(cls, 'indices', 'Index')] *)
Definition ns : string := "indices".

Definition register (E : externals) (key : string) (value : pyval) : M unit :=
  Registry.register ns key value;;
  ql_object ← match value with
              | PStr name => if ql_hasattr E name then mret name
                             else raise UnknownIndexType
              | _ => raise TypeError
              end;
  match ql_new E ql_object with
  | Some i => map_set ns (Str.upper key) (PIndex i)
  | None =>
      let tenor := Str.last_segment key in
      match is_term E tenor with
      | Some true =>
          match ql_new_term E ql_object tenor with
          | Some i => map_set ns key (PIndex i)
          | None => raise ExternalError
          end
      | Some false => raise ConstructionError
      | None => raise ExternalError
      end
  end.

Definition get (key : string) : M pyval :=
  m ← get_store ns;
  match m !! Str.upper key with
  | None => raise NotFound
  | Some v => mret v
  end.

(** [v.name()] on a stored value: only an index object has the method. *)
Definition py_index_name (ql_name : ql_index -> string) (v : pyval) : M string :=
  match v with
  | PIndex i => mret (ql_name i)
  | _ => raise TypeError
  end.

(** [display_all_indices]: the rows of the table. The loop runs over the
    keys of [self._map.items()], in the order Python yields them; the store
    of the model does not record that order, so the keys are an argument, and
    the properties below hold for every enumeration of the store. [ql_name]
    is the [name()] method of the QuantLib index objects. *)
Fixpoint display_all_indices (ql_name : ql_index -> string) (keys : list string)
    : M (list (string * string)) :=
  match keys with
  | [] => mret []
  | k :: rest =>
      index ← get k;
      index_name ← py_index_name ql_name index;
      to_print ← display_all_indices ql_name rest;
      mret ((k, index_name) :: to_print)
  end.

(** [look_up_index_name], over the items of [cls._instance._map.items()] in
    the order Python yields them (an argument, as above). *)
Fixpoint look_up_index_name (ql_name : ql_index -> string) (index : ql_index)
    (items : list (string * pyval)) : M string :=
  match items with
  | [] => raise NotFound
  | (k, v) :: rest =>
      v_name ← py_index_name ql_name v;
      if bool_decide (ql_name index = v_name) then mret k
      else look_up_index_name ql_name index rest
  end.

End IndexRegistry.

(** ** IndexFixingsManager *)

Module IndexFixingsManager.

(** [__new__]: [super().__new__(cls, 'fixings', 'IndexFixings')] *)
Definition ns : string := "fixings".

(** [self._map.setdefault(k, {})]; the empty dict is allocated when the
    key is absent (Python also builds one when it is present, and drops
    it at once). *)
Definition setdefault (k : string) : M pyval :=
  m ← get_store ns;
  match m !! k with
  | Some v => mret v
  | None => l ← alloc ∅; put_store ns (<[k := PDict l]> m);; mret (PDict l)
  end.

Definition column (this_line : gmap string string) (name : string) : M string :=
  match this_line !! name with
  | Some s => mret s
  | None => raise MalformedRecord
  end.

Definition parse {A} (f : string -> option A) (s : string) : M A :=
  match f s with
  | Some a => mret a
  | None => raise MalformedRecord
  end.

(** The body of the loop over the rows, lines 73 and 74; the right-hand
    side of the assignment is evaluated before its target. *)
Definition load_line (E : externals) (key : string)
    (this_line : gmap string string) : M unit :=
  date_s ← column this_line "date";
  fixing_date ← parse (strptime E) date_s;
  fixing_s ← column this_line "fixing";
  fixing ← parse (float_of_str E) fixing_s;
  series ← setdefault (Str.upper key);
  py_setitem series (KDate fixing_date) (PFloat fixing).

Fixpoint load (E : externals) (key : string)
    (csv_reader : list (gmap string string)) : M unit :=
  match csv_reader with
  | [] => mret tt
  | this_line :: rest => load_line E key this_line;; load E key rest
  end.

Definition register (E : externals) (key : string) (value : pyval) : M unit :=
  Registry.register ns key value;;
  let this_path := Str.path_join (fixing_path E) (Str.lower key ++ ".csv") in
  match csv_rows E this_path with
  | Some csv_reader => load E key csv_reader
  | None => mret tt
  end.

Definition insert_fixing (index : string) (date : Date) (fixing : pyval) : M unit :=
  this_map ← Registry.get ns (PStr (Str.lower index));
  present ← py_contains this_map (KDate date);
  if present : bool then mret tt
  else py_setitem this_map (KDate date) fixing.

Definition exist_fixing (index : string) (date : Date) : M bool :=
  this_map ← Registry.get ns (PStr (Str.lower index));
  py_contains this_map (KDate date).

Definition get_fixing (index : string) (date : Date) : M pyval :=
  this_map ← Registry.get ns (PStr (Str.lower index));
  present ← py_contains this_map (KDate date);
  if present : bool then py_getitem this_map (KDate date)
  else raise NotFound.

Definition remove_fixing (index : string) (date : option Date) : M unit :=
  match date with
  | None => Registry.erase ns index
  | Some d =>
      this_map ← Registry.get ns (PStr index);
      py_pop this_map (KDate d);; mret tt
  end.

(** The date and the fixing a row of the file gives, when both columns are
    there and both parse: what lines 73 and 74 read from the row. *)
Definition read_line (E : externals) (this_line : gmap string string)
    : option (Date * spec_float) :=
  date_s ← this_line !! "date";
  fixing_date ← strptime E date_s;
  fixing_s ← this_line !! "fixing";
  fixing ← float_of_str E fixing_s;
  Some (fixing_date, fixing).

(** The rows of the file up to the first one that cannot be read. *)
Fixpoint readable (E : externals) (csv_reader : list (gmap string string))
    : list (Date * spec_float) :=
  match csv_reader with
  | [] => []
  | this_line :: rest =>
      match read_line E this_line with
      | Some p => p :: readable E rest
      | None => []
      end
  end.

(** Whether every row of the file can be read. *)
Definition all_readable (E : externals) (csv_reader : list (gmap string string)) : bool :=
  forallb (fun this_line => bool_decide (is_Some (read_line E this_line))) csv_reader.

(** A series after the assignments [series[date] = fixing] for the given
    rows, in their order. *)
Definition assign_all (series : dict) (rows : list (Date * spec_float)) : dict :=
  foldl (fun s p => <[KDate p.1 := PFloat p.2]> s) series rows.

End IndexFixingsManager.

(** ** DataConventionRegFunction, DataConventionRegistry, DataIdentifierRegistry *)

Module DataConventionRegFunction.

(** [__new__]: [super().__new__(cls, '', cls.__name__)] *)
Definition ns : string := "".

Definition register (key : string) (value : pyval) : M unit :=
  Registry.register ns key value;;
  map_set ns key value.

(** Inherited from the base class. *)
Definition get (key : pyval) : M pyval := Registry.get ns key.

End DataConventionRegFunction.

Module DataConventionRegistry.

(** [__new__]: [super().__new__(cls, 'data_conventions', 'DataConevention')] *)
Definition ns : string := "data_conventions".

Definition register (E : externals) (key : string) (value : pyval) : M unit :=
  value_ ← py_copy value;
  Registry.register ns key value_;;
  type ← py_getitem value_ (KStr "type");
  py_pop value_ (KStr "type");;
  func ← DataConventionRegFunction.get type;
  obj ← py_call E func key value_;
  map_set ns key obj.

(** Inherited from the base class. *)
Definition get (key : pyval) : M pyval := Registry.get ns key.

End DataConventionRegistry.

Module DataIdentifierRegistry.

(** [__new__]: [super().__new__(cls, '', cls.__name__)] *)
Definition ns : string := "".

Definition register (key : string) (value : pyval) : M unit :=
  Registry.register ns key value;;
  map_set ns key value.

(** Inherited from the base class. *)
Definition get (key : pyval) : M pyval := Registry.get ns key.

End DataIdentifierRegistry.

(** ** A sample environment

    One concrete choice of the external collaborators, on which the
    operations can be run: a catalogue with an overnight index built without
    arguments and a term index that needs a tenor, one fixings file, and one
    convention constructor. *)

Module Sample.

Definition d1 : Date := mkDate 2020 1 1.
Definition d2 : Date := mkDate 2020 1 2.

(** The binary64 values of [float("1.25")] and [float("1.30")]. *)
Definition f125 : spec_float := S754_finite false 5629499534213120 (-52).
Definition f130 : spec_float := S754_finite false 5854679515581645 (-52).

Definition sofr_csv : list (gmap string string) :=
  [ {[ "date" := "2020-01-01"; "fixing" := "1.25" ]};
    {[ "date" := "2020-01-02"; "fixing" := "1.30" ]} ].

Definition env : externals := {|
  ql_hasattr name := bool_decide (name = "Sofr") || bool_decide (name = "USDLibor");
  ql_new name :=
    if bool_decide (name = "Sofr") then Some (mkIndex "Sofr" None) else None;
  ql_new_term name tenor :=
    if bool_decide (name = "USDLibor") then Some (mkIndex "USDLibor" (Some tenor))
    else None;
  is_term s := Some (bool_decide (Str.upper s ∈ ["1M"; "3M"; "6M"; "1Y"]));
  fixing_path := "fixings";
  csv_rows path :=
    if bool_decide (path = "fixings/sofr.csv") then Some sofr_csv else None;
  strptime s :=
    if bool_decide (s = "2020-01-01") then Some d1
    else if bool_decide (s = "2020-01-02") then Some d2 else None;
  float_of_str s :=
    if bool_decide (s = "1.25") then Some f125
    else if bool_decide (s = "1.30") then Some f130 else None;
  construct f key fields :=
    if bool_decide (f = "Actual360") then Some (PObj "Actual360" key) else None
|}.

(** The same environment without any fixings file. *)
Definition env_no_file : externals := {|
  ql_hasattr := ql_hasattr env;
  ql_new := ql_new env;
  ql_new_term := ql_new_term env;
  is_term := is_term env;
  fixing_path := fixing_path env;
  csv_rows path := None;
  strptime := strptime env;
  float_of_str := float_of_str env;
  construct := construct env
|}.

(** A world whose only objects are the given dicts, at locations 1 and 2:
    the dicts a caller passes to the registrations. *)
Definition one_dict (d : dict) : world := mkWorld {[ 1%positive := d ]} ∅ [].

Definition two_dicts (d d' : dict) : world :=
  mkWorld {[ 1%positive := d; 2%positive := d' ]} ∅ [].

(** The convention spec [{"type": "Actual360", "other_field": 7}], and a
    spec without the ["type"] field. *)
Definition spec_actual360 : dict :=
  {[ KStr "type" := PStr "Actual360"; KStr "other_field" := PInt 7 ]}.

Definition spec_untyped : dict := {[ KStr "other_field" := PInt 7 ]}.

(** A world where the constructor ["Actual360"] is registered, with the
    two specs above as the dict objects 1 and 2. *)
Definition conv_world : world :=
  mkWorld {[ 1%positive := spec_actual360; 2%positive := spec_untyped ]}
          {[ "" := {[ "Actual360" := PFunc "Actual360" ]} ]} [].

End Sample.

(** * Properties *)

(** ** The world under its three updates *)

Section World.
Context (w : world).

Lemma store_of_with_store ns m : store_of ns (with_store ns m w) = m.
Proof. unfold store_of, with_store; simpl. by rewrite lookup_insert_eq. Qed.

Lemma store_of_with_store_ne ns ns' m :
  ns ≠ ns' -> store_of ns' (with_store ns m w) = store_of ns' w.
Proof. intros Hne. unfold store_of, with_store; simpl. by rewrite lookup_insert_ne. Qed.

Lemma store_of_with_dict ns l d : store_of ns (with_dict l d w) = store_of ns w.
Proof. reflexivity. Qed.

Lemma store_of_with_call ns c : store_of ns (with_call c w) = store_of ns w.
Proof. reflexivity. Qed.

Lemma heap_with_store ns m : heap (with_store ns m w) = heap w.
Proof. reflexivity. Qed.

Lemma heap_with_call c : heap (with_call c w) = heap w.
Proof. reflexivity. Qed.

Lemma heap_with_dict l d : heap (with_dict l d w) = <[l := d]> (heap w).
Proof. reflexivity. Qed.

Lemma calls_with_store ns m : calls (with_store ns m w) = calls w.
Proof. reflexivity. Qed.

Lemma calls_with_dict l d : calls (with_dict l d w) = calls w.
Proof. reflexivity. Qed.

Lemma with_store_twice ns m m' :
  with_store ns m' (with_store ns m w) = with_store ns m' w.
Proof. unfold with_store; simpl. by rewrite insert_insert_eq. Qed.

(** A new dict object never takes the place of one that exists. *)
Lemma fresh_loc_ne l d : heap w !! l = Some d -> fresh (dom (heap w)) ≠ l.
Proof.
  intros Hl Heq. apply (is_fresh (dom (heap w))).
  rewrite Heq. apply elem_of_dom. eauto.
Qed.

End World.

Create Rewrite HintDb world.

#[global] Hint Rewrite store_of_with_store store_of_with_dict store_of_with_call
  heap_with_store heap_with_call heap_with_dict calls_with_store calls_with_dict
  with_store_twice : world.

(** ** The monad *)

Lemma bind_ok {A B} (m : M A) (k : A -> M B) w a w' :
  m w = (Ok a, w') -> (m ≫= k) w = k a w'.
Proof. intros H. unfold mbind, M_bind. by rewrite H. Qed.

Lemma bind_raise {A B} (m : M A) (k : A -> M B) w e w' :
  m w = (Raise e, w') -> (m ≫= k) w = (Raise e, w').
Proof. intros H. unfold mbind, M_bind. by rewrite H. Qed.

Lemma bind_inv {A B} (m : M A) (k : A -> M B) w r w' :
  (m ≫= k) w = (r, w') ->
  (exists e, m w = (Raise e, w') /\ r = Raise e) \/
  (exists a w1, m w = (Ok a, w1) /\ k a w1 = (r, w')).
Proof.
  unfold mbind, M_bind. destruct (m w) as [[a|e] w1]; intros H.
  - right. eauto.
  - left. injection H as <- <-. eauto.
Qed.

(** ** The base registry *)

Lemma map_set_run ns key value w :
  map_set ns key value w = (Ok tt, with_store ns (<[key := value]> (store_of ns w)) w).
Proof. reflexivity. Qed.

Lemma register_fresh ns key value w :
  store_of ns w !! key = None ->
  Registry.register ns key value w
  = (Ok tt, with_store ns (<[key := value]> (store_of ns w)) w).
Proof.
  intros H. unfold Registry.register, get_store, mbind, M_bind.
  rewrite bool_decide_eq_false_2; [reflexivity|].
  rewrite H. by intros [? ?].
Qed.

Lemma register_present ns key value w :
  is_Some (store_of ns w !! key) ->
  Registry.register ns key value w = (Raise DuplicateKey, w).
Proof.
  intros H. unfold Registry.register, get_store, mbind, M_bind.
  by rewrite bool_decide_eq_true_2.
Qed.

Lemma register_inv ns key value w r w' :
  Registry.register ns key value w = (r, w') ->
  (r = Raise DuplicateKey /\ w' = w /\ is_Some (store_of ns w !! key)) \/
  (r = Ok tt /\ w' = with_store ns (<[key := value]> (store_of ns w)) w
   /\ store_of ns w !! key = None).
Proof.
  destruct (store_of ns w !! key) eqn:Hk.
  - rewrite register_present by (rewrite Hk; eauto).
    intros [= <- <-]. left. eauto.
  - rewrite register_fresh by done. intros [= <- <-]. right. eauto.
Qed.

Lemma get_run ns k w :
  Registry.get ns (PStr k) w
  = (match store_of ns w !! k with
     | Some v => Ok v
     | None => Raise NotFound
     end, with_call (Lookup ns (PStr k)) w).
Proof.
  unfold Registry.get, log, get_store, mbind, M_bind.
  rewrite store_of_with_call. by destruct (store_of ns w !! k).
Qed.

Lemma erase_present ns key w :
  is_Some (store_of ns w !! key) ->
  Registry.erase ns key w = (Ok tt, with_store ns (delete key (store_of ns w)) w).
Proof.
  intros H. unfold Registry.erase, get_store, mbind, M_bind.
  by rewrite bool_decide_eq_true_2.
Qed.

Lemma get_inv ns key w r w' :
  Registry.get ns key w = (r, w') ->
  w' = with_call (Lookup ns key) w /\ r ≠ Raise DuplicateKey.
Proof.
  unfold Registry.get, log, get_store, mbind, M_bind, mret, M_ret, raise.
  destruct key; try (intros [= <- <-]; done).
  destruct (store_of ns _ !! s); intros [= <- <-]; done.
Qed.

(** ** Dict objects *)

Lemma contains_run l d k w :
  heap w !! l = Some d ->
  py_contains (PDict l) k w = (Ok (bool_decide (is_Some (d !! k))), w).
Proof. intros H. unfold py_contains, deref, mbind, M_bind. by rewrite H. Qed.

Lemma setitem_run l d k v w :
  heap w !! l = Some d ->
  py_setitem (PDict l) k v w = (Ok tt, with_dict l (<[k := v]> d) w).
Proof. intros H. unfold py_setitem, deref, update, mbind, M_bind. by rewrite H. Qed.

Lemma getitem_run l d k w :
  heap w !! l = Some d ->
  py_getitem (PDict l) k w
  = (match d !! k with Some v => Ok v | None => Raise MissingField end, w).
Proof.
  intros H. unfold py_getitem, deref, mbind, M_bind. rewrite H.
  by destruct (d !! k).
Qed.

Lemma copy_run l d w :
  heap w !! l = Some d ->
  py_copy (PDict l) w
  = (Ok (PDict (fresh (dom (heap w)))), with_dict (fresh (dom (heap w))) d w).
Proof. intros H. unfold py_copy, deref, alloc, mbind, M_bind. by rewrite H. Qed.

Lemma pop_run l d k w :
  heap w !! l = Some d ->
  py_pop (PDict l) k w
  = match d !! k with
    | Some v => (Ok v, with_dict l (delete k d) w)
    | None => (Raise MissingField, w)
    end.
Proof.
  intros H. unfold py_pop, deref, update, mbind, M_bind. rewrite H.
  by destruct (d !! k).
Qed.

Lemma call_inv E func key arg w r w' :
  py_call E func key arg w = (r, w') ->
  heap w' = heap w /\ stores w' = stores w /\ r ≠ Raise DuplicateKey.
Proof.
  unfold py_call, log, deref, mbind, M_bind, mret, M_ret, raise.
  destruct func; try (intros [= <- <-]; done).
  destruct arg; try (intros [= <- <-]; done). simpl.
  destruct (heap w !! l) as [d|]; [|intros [= <- <-]; done].
  destruct (construct E name key d); intros [= <- <-]; done.
Qed.

(** ** The pass-through registries of the namespace [''] *)

Lemma identifier_register_inv k v w r w' :
  DataIdentifierRegistry.register k v w = (r, w') ->
  (r = Raise DuplicateKey /\ w' = w) \/
  (r = Ok tt /\ store_of "" w !! k = None
   /\ w' = with_store "" (<[k := v]> (store_of "" w)) w).
Proof.
  unfold DataIdentifierRegistry.register, DataIdentifierRegistry.ns.
  intros H. apply bind_inv in H as [(e & Hreg & ->)|([] & w1 & Hreg & Hset)];
    apply register_inv in Hreg as [(Hr & -> & _)|(Hr & -> & Hk)]; try discriminate.
  - left. by injection Hr as ->.
  - right. rewrite map_set_run in Hset. injection Hset as <- <-.
    autorewrite with world. by rewrite insert_insert_eq.
Qed.

(** C10: [DataConventionRegFunction] and [DataIdentifierRegistry] are both
    built on the namespace [''], hence on one store: once
    [DataIdentifierRegistry().register(k, v)] has succeeded,
    [DataConventionRegFunction().register(k, f)] fails with DuplicateKey and
    [DataConventionRegFunction().get(k)] returns [v]. *)
Theorem reg_function_shares_identifier_store w k v f w' :
  DataIdentifierRegistry.register k v w = (Ok tt, w') ->
  DataConventionRegFunction.ns = DataIdentifierRegistry.ns /\
  (DataConventionRegFunction.register k f w').1 = Raise DuplicateKey /\
  (DataConventionRegFunction.get (PStr k) w').1 = Ok v.
Proof.
  intros H. apply identifier_register_inv in H as [(? & _)|(_ & _ & ->)]; [discriminate|].
  split; [reflexivity|]. split.
  - unfold DataConventionRegFunction.register, DataConventionRegFunction.ns.
    erewrite bind_raise; [reflexivity|]. apply register_present.
    autorewrite with world. rewrite lookup_insert_eq. eauto.
  - unfold DataConventionRegFunction.get, DataConventionRegFunction.ns.
    rewrite get_run. autorewrite with world. by rewrite lookup_insert_eq.
Qed.

Lemma reg_function_shares_identifier_store_witness :
  (DataConventionRegFunction.register "USD" (PFunc "Actual360")
     (DataIdentifierRegistry.register "USD" (PInt 840) empty_world).2).1
  = Raise DuplicateKey /\
  (DataConventionRegFunction.get (PStr "USD")
     (DataIdentifierRegistry.register "USD" (PInt 840) empty_world).2).1
  = Ok (PInt 840).
Proof.
  apply (reg_function_shares_identifier_store empty_world "USD" (PInt 840)
           (PFunc "Actual360")).
  vm_compute. reflexivity.
Defined.

(** ** IndexRegistry *)

Lemma index_get_run key w :
  IndexRegistry.get key w
  = (match store_of IndexRegistry.ns w !! Str.upper key with
     | None => Raise NotFound
     | Some v => Ok v
     end, w).
Proof.
  unfold IndexRegistry.get, get_store, mbind, M_bind.
  by destruct (store_of IndexRegistry.ns w !! Str.upper key).
Qed.

Section IndexRegister.
Context (E : externals) (w : world) (key name : string).
Hypothesis fresh_key : store_of IndexRegistry.ns w !! key = None.
Hypothesis known : ql_hasattr E name = true.

(** The branch of line 28: the class builds an index without arguments. *)
Lemma index_register_direct i :
  ql_new E name = Some i ->
  IndexRegistry.register E key (PStr name) w
  = (Ok tt, with_store IndexRegistry.ns
              (<[Str.upper key := PIndex i]>
                 (<[key := PStr name]> (store_of IndexRegistry.ns w))) w).
Proof using fresh_key known.
  intros Hnew. unfold IndexRegistry.register.
  erewrite bind_ok by (by apply register_fresh).
  rewrite known. erewrite bind_ok by reflexivity. rewrite Hnew.
  rewrite map_set_run. by autorewrite with world.
Qed.

(** The branch of line 34: the class needs a tenor, and the suffix of the
    key is one. *)
Lemma index_register_term i :
  ql_new E name = None ->
  is_term E (Str.last_segment key) = Some true ->
  ql_new_term E name (Str.last_segment key) = Some i ->
  IndexRegistry.register E key (PStr name) w
  = (Ok tt, with_store IndexRegistry.ns
              (<[key := PIndex i]> (store_of IndexRegistry.ns w)) w).
Proof using fresh_key known.
  intros Hnew Hterm Hnewt. unfold IndexRegistry.register.
  erewrite bind_ok by (by apply register_fresh).
  rewrite known. erewrite bind_ok by reflexivity. rewrite Hnew, Hterm, Hnewt.
  rewrite map_set_run. autorewrite with world. by rewrite insert_insert_eq.
Qed.

(** The branch of line 33: the suffix of the key is not a tenor. *)
Lemma index_register_not_term :
  ql_new E name = None ->
  is_term E (Str.last_segment key) = Some false ->
  IndexRegistry.register E key (PStr name) w
  = (Raise ConstructionError,
     with_store IndexRegistry.ns
       (<[key := PStr name]> (store_of IndexRegistry.ns w)) w).
Proof using fresh_key known.
  intros Hnew Hterm. unfold IndexRegistry.register.
  erewrite bind_ok by (by apply register_fresh).
  rewrite known. erewrite bind_ok by reflexivity. by rewrite Hnew, Hterm.
Qed.

(** An index built without arguments is found under every casing of its key. *)
Lemma index_direct_get_any_case i s :
  ql_new E name = Some i ->
  Str.upper s = Str.upper key ->
  (IndexRegistry.get s (IndexRegistry.register E key (PStr name) w).2).1
  = Ok (PIndex i).
Proof using fresh_key known.
  intros Hnew Hs. rewrite (index_register_direct i Hnew). simpl.
  rewrite index_get_run. autorewrite with world. simpl.
  by rewrite Hs, lookup_insert_eq.
Qed.

(** An index built with a tenor is stored under the key as given: [get]
    does not find it unless the key was upper-case already. *)
Lemma index_term_get_not_found i :
  ql_new E name = None ->
  is_term E (Str.last_segment key) = Some true ->
  ql_new_term E name (Str.last_segment key) = Some i ->
  Str.upper key ≠ key ->
  store_of IndexRegistry.ns w !! Str.upper key = None ->
  (IndexRegistry.get key (IndexRegistry.register E key (PStr name) w).2).1
  = Raise NotFound.
Proof using fresh_key known.
  intros Hnew Hterm Hnewt Hne Hup.
  rewrite (index_register_term i Hnew Hterm Hnewt). simpl.
  rewrite index_get_run. autorewrite with world. simpl.
  rewrite lookup_insert_ne by done. by rewrite Hup.
Qed.

End IndexRegister.


(** C2, on the key ["usd-libor-3M"] of a class that needs a tenor: the
    registration succeeds and stores the index under the key as given, not
    under the upper-cased key, so [get] fails with NotFound for the very key
    that was registered and for every other casing of it; the same index
    registered as ["USD-LIBOR-3M"] is found under every casing. *)
Theorem index_term_key_not_upper_cased :
  let w1 := (IndexRegistry.register Sample.env "usd-libor-3M" (PStr "USDLibor")
               empty_world).2 in
  let w2 := (IndexRegistry.register Sample.env "USD-LIBOR-3M" (PStr "USDLibor")
               empty_world).2 in
  (IndexRegistry.register Sample.env "usd-libor-3M" (PStr "USDLibor") empty_world).1
  = Ok tt /\
  store_of IndexRegistry.ns w1 !! "usd-libor-3M"
  = Some (PIndex (mkIndex "USDLibor" (Some "3M"))) /\
  store_of IndexRegistry.ns w1 !! "USD-LIBOR-3M" = None /\
  (IndexRegistry.get "usd-libor-3M" w1).1 = Raise NotFound /\
  (IndexRegistry.get "USD-LIBOR-3M" w1).1 = Raise NotFound /\
  (IndexRegistry.get "usd-libor-3M" w2).1
  = Ok (PIndex (mkIndex "USDLibor" (Some "3M"))).
Proof. vm_compute. repeat split. Qed.

(** ** DataConventionRegistry *)

(** What a registration of a spec does to the heap and to the store: only
    the copy of the spec is written, and the key holds the copy after a
    failure, the constructed object after a success. *)
Lemma convention_register_inv E key l d w r w' :
  heap w !! l = Some d ->
  DataConventionRegistry.register E key (PDict l) w = (r, w') ->
  let l' := fresh (dom (heap w)) in
  let ns := DataConventionRegistry.ns in
  (forall l0, l0 ≠ l' -> heap w' !! l0 = heap w !! l0) /\
  ((r = Raise DuplicateKey /\ is_Some (store_of ns w !! key)) \/
   (store_of ns w !! key = None /\
    ((exists e, r = Raise e /\ e ≠ DuplicateKey /\
                store_of ns w' = <[key := PDict l']> (store_of ns w)) \/
     (exists obj, r = Ok tt /\ store_of ns w' = <[key := obj]> (store_of ns w))))).
Proof.
  intros Hl H l' ns. unfold DataConventionRegistry.register in H.
  erewrite bind_ok in H by (by apply copy_run). fold l' in H.
  apply bind_inv in H as [(e0 & Hreg & ->)|([] & w1 & Hreg & H)];
    apply register_inv in Hreg as [(Hr & -> & Hk)|(Hr & -> & Hk)]; try discriminate.
  { split.
    - intros l0 Hl0. simpl. by rewrite lookup_insert_ne.
    - left. split; [done|]. by autorewrite with world in Hk. }
  autorewrite with world in Hk. fold ns in Hk, H.
  clear Hr. set (w2 := with_store ns _ _) in H.
  assert (Hh2 : heap w2 !! l' = Some d) by (subst w2; simpl; by rewrite lookup_insert_eq).
  assert (Hs2 : store_of ns w2 = <[key := PDict l']> (store_of ns w))
    by (subst w2; by autorewrite with world).
  assert (Hf2 : forall l0, l0 ≠ l' -> heap w2 !! l0 = heap w !! l0)
    by (intros l0 Hl0; subst w2; simpl; by rewrite lookup_insert_ne).
  clearbody w2.
  destruct (d !! KStr "type") as [t|] eqn:Ht.
  2: { erewrite bind_raise in H by (by rewrite (getitem_run _ _ _ _ Hh2), Ht).
       injection H as <- <-. split; [done|]. right. split; [done|]. left. eauto. }
  erewrite bind_ok in H by (by rewrite (getitem_run _ _ _ _ Hh2), Ht).
  erewrite bind_ok in H by (by rewrite (pop_run _ _ _ _ Hh2), Ht).
  set (w3 := with_dict l' _ w2) in H.
  assert (Hs3 : store_of ns w3 = <[key := PDict l']> (store_of ns w)) by done.
  assert (Hf3 : forall l0, l0 ≠ l' -> heap w3 !! l0 = heap w !! l0)
    by (intros l0 Hl0; subst w3; simpl; rewrite lookup_insert_ne by done; auto).
  clearbody w3.
  apply bind_inv in H as [(e & Hget & ->)|(func & w4 & Hget & H)];
    apply get_inv in Hget as [-> Hne].
  { split; [done|]. right. split; [done|]. left. exists e. split; [done|].
    split; [congruence|done]. }
  apply bind_inv in H as [(e & Hcall & ->)|(obj & w5 & Hcall & H)];
    apply call_inv in Hcall as (Hh & Hst & Hne').
  { split; [intros; rewrite Hh; auto|]. right. split; [done|]. left. exists e.
    split; [done|]. split; [congruence|]. unfold store_of. rewrite Hst. exact Hs3. }
  rewrite map_set_run in H. injection H as <- <-.
  split; [intros; simpl; rewrite Hh; auto|]. right. split; [done|]. right.
  exists obj. split; [done|]. autorewrite with world.
  unfold store_of at 1. rewrite Hst. fold (store_of ns (with_call (Lookup DataConventionRegFunction.ns t) w3)).
  autorewrite with world. rewrite Hs3. by rewrite insert_insert_eq.
Qed.

Lemma convention_register_missing_type E w key l d :
  heap w !! l = Some d ->
  d !! KStr "type" = None ->
  store_of DataConventionRegistry.ns w !! key = None ->
  DataConventionRegistry.register E key (PDict l) w
  = (Raise MissingField,
     with_store DataConventionRegistry.ns
       (<[key := PDict (fresh (dom (heap w)))]> (store_of DataConventionRegistry.ns w))
       (with_dict (fresh (dom (heap w))) d w)).
Proof.
  intros Hl Ht Hk. unfold DataConventionRegistry.register.
  erewrite bind_ok by (by apply copy_run).
  erewrite bind_ok by (by apply register_fresh).
  autorewrite with world.
  erewrite bind_raise; [reflexivity|].
  erewrite getitem_run by (simpl; apply lookup_insert_eq). by rewrite Ht.
Qed.

(** ** The claims on failed registrations *)




(** C5: [DataConventionRegistry.register] works on a copy. Whatever the
    outcome of the call, the dict the caller passed holds the items it held
    before, the ["type"] item among them, and so does every other dict
    object that existed before the call. *)
Theorem convention_register_keeps_caller_dict E w key l d r w' :
  heap w !! l = Some d ->
  DataConventionRegistry.register E key (PDict l) w = (r, w') ->
  heap w' !! l = Some d /\
  (forall t, d !! KStr "type" = Some t ->
             (py_getitem (PDict l) (KStr "type") w').1 = Ok t) /\
  (forall l0 d0, heap w !! l0 = Some d0 -> heap w' !! l0 = Some d0).
Proof.
  intros Hl H. apply (convention_register_inv _ _ _ _ _ _ _ Hl) in H as [Hframe _].
  assert (Hall : forall l0 d0, heap w !! l0 = Some d0 -> heap w' !! l0 = Some d0).
  { intros l0 d0 Hl0. rewrite Hframe; [done|].
    intros ->. by eapply fresh_loc_ne. }
  split; [by apply Hall|]. split; [|done].
  intros t Ht. erewrite getitem_run by (by apply Hall). by rewrite Ht.
Qed.

Lemma convention_register_keeps_caller_dict_witness :
  (DataConventionRegistry.register Sample.env "30/360" (PDict 1%positive)
     Sample.conv_world).1 = Ok tt /\
  heap (DataConventionRegistry.register Sample.env "30/360" (PDict 1%positive)
          Sample.conv_world).2 !! 1%positive
  = Some Sample.spec_actual360.
Proof.
  split; [vm_compute; reflexivity|].
  refine (proj1 (convention_register_keeps_caller_dict Sample.env Sample.conv_world
                   "30/360" 1%positive Sample.spec_actual360 _ _ _ _)).
  - vm_compute. reflexivity.
  - apply surjective_pairing.
Defined.

(** C6, as stated, fails: for a key that is registered already, the
    registration of a spec without ["type"] fails with DuplicateKey, not with
    MissingField. *)
Lemma convention_register_missing_type_counterexample :
  let w1 := (DataConventionRegistry.register Sample.env "30/360" (PDict 1%positive)
               Sample.conv_world).2 in
  (DataConventionRegistry.register Sample.env "30/360" (PDict 1%positive)
     Sample.conv_world).1 = Ok tt /\
  heap w1 !! 2%positive = Some Sample.spec_untyped /\
  Sample.spec_untyped !! KStr "type" = None /\
  (DataConventionRegistry.register Sample.env "30/360" (PDict 2%positive) w1).1
  = Raise DuplicateKey.
Proof. vm_compute. repeat split. Qed.

(** C6, amended: for every key that is not registered yet and every spec
    dict without a ["type"] field, [DataConventionRegistry.register] fails
    with MissingField, and it does so before any lookup or constructor call:
    the log of calls is the one from before, and no registry of another
    namespace has changed. *)
Theorem convention_register_missing_type_fails E w key l d :
  heap w !! l = Some d ->
  d !! KStr "type" = None ->
  store_of DataConventionRegistry.ns w !! key = None ->
  (DataConventionRegistry.register E key (PDict l) w).1 = Raise MissingField /\
  calls (DataConventionRegistry.register E key (PDict l) w).2 = calls w /\
  store_of DataConventionRegFunction.ns
    (DataConventionRegistry.register E key (PDict l) w).2
  = store_of DataConventionRegFunction.ns w.
Proof.
  intros Hl Ht Hk. rewrite (convention_register_missing_type E w key l d Hl Ht Hk).
  simpl. split; [done|]. split; [done|].
  by rewrite store_of_with_store_ne.
Qed.

Lemma convention_register_missing_type_fails_witness :
  (DataConventionRegistry.register Sample.env "30/360" (PDict 2%positive)
     Sample.conv_world).1 = Raise MissingField /\
  calls (DataConventionRegistry.register Sample.env "30/360" (PDict 2%positive)
           Sample.conv_world).2 = [].
Proof.
  destruct (convention_register_missing_type_fails Sample.env Sample.conv_world "30/360"
              2%positive Sample.spec_untyped) as (Hr & Hc & _).
  - vm_compute. reflexivity.
  - vm_compute. reflexivity.
  - vm_compute. reflexivity.
  - split; [exact Hr | exact Hc].
Defined.

(** C7: when the key is new, the class is in the catalogue, the class does
    not build an index without arguments, and the suffix of the key after
    its last ['-'] is classified as not a term, [IndexRegistry.register]
    fails with ConstructionError and stores no index: the entry of the key is
    the raw type name, and every index in the store was there before. *)
Theorem index_register_not_term_fails E w key name :
  store_of IndexRegistry.ns w !! key = None ->
  ql_hasattr E name = true ->
  ql_new E name = None ->
  is_term E (Str.last_segment key) = Some false ->
  (IndexRegistry.register E key (PStr name) w).1 = Raise ConstructionError /\
  store_of IndexRegistry.ns (IndexRegistry.register E key (PStr name) w).2 !! key
  = Some (PStr name) /\
  (forall k i,
     store_of IndexRegistry.ns (IndexRegistry.register E key (PStr name) w).2 !! k
     = Some (PIndex i) ->
     k ≠ key /\ store_of IndexRegistry.ns w !! k = Some (PIndex i)).
Proof.
  intros Hk Hknown Hnew Hterm.
  rewrite (index_register_not_term E w key name Hk Hknown Hnew Hterm). simpl.
  autorewrite with world. split; [done|]. split; [by rewrite lookup_insert_eq|].
  intros k i. destruct (decide (k = key)) as [->|Hne].
  - by rewrite lookup_insert_eq.
  - by rewrite lookup_insert_ne.
Qed.

Lemma index_register_not_term_fails_witness :
  (IndexRegistry.register Sample.env "USD-LIBOR-SPOT" (PStr "USDLibor") empty_world).1
  = Raise ConstructionError.
Proof.
  apply (index_register_not_term_fails Sample.env empty_world "USD-LIBOR-SPOT"
           "USDLibor"); vm_compute; reflexivity.
Defined.

(** ** IndexFixingsManager *)

Section Fixings.
Context (w : world) (index : string) (date : Date).

(** The three readers look the series up under the lower-cased name. *)
Lemma insert_fixing_absent fixing :
  store_of IndexFixingsManager.ns w !! Str.lower index = None ->
  IndexFixingsManager.insert_fixing index date fixing w
  = (Raise NotFound, with_call (Lookup IndexFixingsManager.ns (PStr (Str.lower index))) w).
Proof.
  intros H. unfold IndexFixingsManager.insert_fixing.
  erewrite bind_raise; [reflexivity|]. by rewrite get_run, H.
Qed.

Lemma exist_fixing_absent :
  store_of IndexFixingsManager.ns w !! Str.lower index = None ->
  IndexFixingsManager.exist_fixing index date w
  = (Raise NotFound, with_call (Lookup IndexFixingsManager.ns (PStr (Str.lower index))) w).
Proof.
  intros H. unfold IndexFixingsManager.exist_fixing.
  erewrite bind_raise; [reflexivity|]. by rewrite get_run, H.
Qed.

Lemma get_fixing_absent :
  store_of IndexFixingsManager.ns w !! Str.lower index = None ->
  IndexFixingsManager.get_fixing index date w
  = (Raise NotFound, with_call (Lookup IndexFixingsManager.ns (PStr (Str.lower index))) w).
Proof.
  intros H. unfold IndexFixingsManager.get_fixing.
  erewrite bind_raise; [reflexivity|]. by rewrite get_run, H.
Qed.

Context (l : loc) (series : dict).
Hypothesis registered :
  store_of IndexFixingsManager.ns w !! Str.lower index = Some (PDict l).
Hypothesis allocated : heap w !! l = Some series.

Lemma insert_fixing_run fixing :
  IndexFixingsManager.insert_fixing index date fixing w
  = (Ok tt,
     match series !! KDate date with
     | Some _ => with_call (Lookup IndexFixingsManager.ns (PStr (Str.lower index))) w
     | None => with_dict l (<[KDate date := fixing]> series) (with_call (Lookup IndexFixingsManager.ns (PStr (Str.lower index))) w)
     end).
Proof using registered allocated.
  unfold IndexFixingsManager.insert_fixing.
  erewrite bind_ok by (by rewrite get_run, registered).
  erewrite bind_ok by (by apply contains_run).
  destruct (series !! KDate date) as [v|] eqn:Hd.
  - by rewrite bool_decide_eq_true_2 by eauto.
  - rewrite bool_decide_eq_false_2 by (by intros [? ?]).
    by erewrite setitem_run.
Qed.

Lemma get_fixing_run :
  IndexFixingsManager.get_fixing index date w
  = (match series !! KDate date with
     | Some v => Ok v
     | None => Raise NotFound
     end, with_call (Lookup IndexFixingsManager.ns (PStr (Str.lower index))) w).
Proof using registered allocated.
  unfold IndexFixingsManager.get_fixing.
  erewrite bind_ok by (by rewrite get_run, registered).
  erewrite bind_ok by (by apply contains_run).
  destruct (series !! KDate date) as [v|] eqn:Hd.
  - rewrite bool_decide_eq_true_2 by eauto.
    erewrite getitem_run by done. by rewrite Hd.
  - by rewrite bool_decide_eq_false_2 by (by intros [? ?]).
Qed.

End Fixings.




(** *** What a registration writes to the registry of fixings *)

Lemma column_inv row name w r w' :
  IndexFixingsManager.column row name w = (r, w') -> w' = w.
Proof.
  unfold IndexFixingsManager.column, mret, M_ret, raise.
  destruct (row !! name); by intros [= _ <-].
Qed.

Lemma parse_inv {A} (f : string -> option A) s w r w' :
  IndexFixingsManager.parse f s w = (r, w') -> w' = w.
Proof.
  unfold IndexFixingsManager.parse, mret, M_ret, raise.
  destruct (f s); by intros [= _ <-].
Qed.

Lemma setdefault_inv k w r w' :
  IndexFixingsManager.setdefault k w = (r, w') ->
  forall k', k' ≠ k ->
    store_of IndexFixingsManager.ns w' !! k' = store_of IndexFixingsManager.ns w !! k'.
Proof.
  unfold IndexFixingsManager.setdefault, get_store, put_store, alloc,
    mbind, M_bind, mret, M_ret.
  destruct (store_of IndexFixingsManager.ns w !! k) eqn:Hk.
  - by intros [= _ <-].
  - intros [= _ <-] k' Hne. autorewrite with world. by rewrite lookup_insert_ne.
Qed.

Lemma setitem_inv obj k v w r w' :
  py_setitem obj k v w = (r, w') -> stores w' = stores w.
Proof.
  unfold py_setitem, deref, update, mbind, M_bind, raise.
  destruct obj; try by intros [= _ <-].
  destruct (heap w !! l); by intros [= _ <-].
Qed.

Lemma load_line_store E key row w r w' :
  IndexFixingsManager.load_line E key row w = (r, w') ->
  forall k, k ≠ Str.upper key ->
    store_of IndexFixingsManager.ns w' !! k = store_of IndexFixingsManager.ns w !! k.
Proof.
  unfold IndexFixingsManager.load_line. intros H k Hk.
  apply bind_inv in H as [(e & H & _)|(date_s & w1 & H1 & H)];
    [by apply column_inv in H as ->|apply column_inv in H1 as ->].
  apply bind_inv in H as [(e & H & _)|(fixing_date & w1 & H1 & H)];
    [by apply parse_inv in H as ->|apply parse_inv in H1 as ->].
  apply bind_inv in H as [(e & H & _)|(fixing_s & w1 & H1 & H)];
    [by apply column_inv in H as ->|apply column_inv in H1 as ->].
  apply bind_inv in H as [(e & H & _)|(fixing & w1 & H1 & H)];
    [by apply parse_inv in H as ->|apply parse_inv in H1 as ->].
  apply bind_inv in H as [(e & H & _)|(series & w1 & H1 & H)].
  - by eapply setdefault_inv.
  - apply setitem_inv in H. unfold store_of at 1. rewrite H.
    by eapply setdefault_inv.
Qed.

Lemma load_store E key rows : forall w r w',
  IndexFixingsManager.load E key rows w = (r, w') ->
  forall k, k ≠ Str.upper key ->
    store_of IndexFixingsManager.ns w' !! k = store_of IndexFixingsManager.ns w !! k.
Proof.
  induction rows as [|row rows IH]; intros w r w' H k Hk; simpl in H.
  - by injection H as _ <-.
  - apply bind_inv in H as [(e & H & _)|([] & w1 & H1 & H)].
    + by eapply load_line_store.
    + rewrite (IH _ _ _ H k Hk). by eapply load_line_store.
Qed.

(** A registration writes the key as given (base registration) and the
    upper-cased key (loaded rows), and no other key. *)
Lemma fixings_register_store E key value w r w' :
  IndexFixingsManager.register E key value w = (r, w') ->
  forall k, k ≠ key -> k ≠ Str.upper key ->
    store_of IndexFixingsManager.ns w' !! k = store_of IndexFixingsManager.ns w !! k.
Proof.
  unfold IndexFixingsManager.register. intros H k Hk Hup.
  apply bind_inv in H as [(e & Hreg & _)|([] & w1 & Hreg & H)];
    apply register_inv in Hreg as [(Hr & -> & _)|(Hr & -> & _)]; try discriminate;
    [done|].
  assert (Hbase : store_of IndexFixingsManager.ns
                    (with_store IndexFixingsManager.ns
                       (<[key := value]> (store_of IndexFixingsManager.ns w)) w) !! k
                  = store_of IndexFixingsManager.ns w !! k).
  { autorewrite with world. by rewrite lookup_insert_ne. }
  destruct (csv_rows E _) as [rows|].
  - rewrite (load_store _ _ _ _ _ _ H k Hup). exact Hbase.
  - injection H as _ <-. exact Hbase.
Qed.

(** Hence the readers, which look under the lower-cased name, do not find
    what the registration of a key with an upper-case letter has stored. *)
Lemma fixings_of_mixed_case_key_not_found E key value w date :
  Str.lower key ≠ key ->
  Str.lower key ≠ Str.upper key ->
  store_of IndexFixingsManager.ns w !! Str.lower key = None ->
  let w' := (IndexFixingsManager.register E key value w).2 in
  (IndexFixingsManager.exist_fixing key date w').1 = Raise NotFound /\
  (IndexFixingsManager.get_fixing key date w').1 = Raise NotFound /\
  (forall fixing,
     (IndexFixingsManager.insert_fixing key date fixing w').1 = Raise NotFound).
Proof.
  intros Hne Hup Hk w'.
  assert (Hk' : store_of IndexFixingsManager.ns w' !! Str.lower key = None).
  { subst w'.
    by rewrite (fixings_register_store E key value w _ _ (surjective_pairing _)
                  (Str.lower key) Hne Hup). }
  split; [by rewrite exist_fixing_absent|].
  split; [by rewrite get_fixing_absent|].
  intros fixing. by rewrite insert_fixing_absent.
Qed.

(** C3, on the file of the claim: [register("SOFR", {})] loads the two rows
    into the series stored under ["SOFR"], and [exist_fixing("sofr", ...)]
    and [get_fixing("sofr", ...)] look under ["sofr"], where nothing is
    stored: both fail with NotFound. *)
Theorem loaded_fixings_not_found_by_lower_name :
  let w1 := (IndexFixingsManager.register Sample.env "SOFR" (PDict 1%positive)
               (Sample.one_dict ∅)).2 in
  (IndexFixingsManager.register Sample.env "SOFR" (PDict 1%positive)
     (Sample.one_dict ∅)).1 = Ok tt /\
  store_of IndexFixingsManager.ns w1 !! "SOFR" = Some (PDict 1%positive) /\
  heap w1 !! 1%positive
  = Some {[ KDate Sample.d1 := PFloat Sample.f125;
            KDate Sample.d2 := PFloat Sample.f130 ]} /\
  store_of IndexFixingsManager.ns w1 !! "sofr" = None /\
  (IndexFixingsManager.exist_fixing "sofr" Sample.d1 w1).1 = Raise NotFound /\
  (IndexFixingsManager.get_fixing "sofr" Sample.d2 w1).1 = Raise NotFound.
Proof. vm_compute. repeat split. Qed.

(** For a name that is lower-case already, [remove_fixing(index)] does what
    C8 says. *)
Lemma remove_fixing_lower_name w index :
  Str.lower index = index ->
  is_Some (store_of IndexFixingsManager.ns w !! index) ->
  let w' := (IndexFixingsManager.remove_fixing index None w).2 in
  (IndexFixingsManager.remove_fixing index None w).1 = Ok tt /\
  (forall d, (IndexFixingsManager.get_fixing index d w').1 = Raise NotFound) /\
  (forall d v, (IndexFixingsManager.insert_fixing index d v w').1 = Raise NotFound).
Proof.
  intros Hlow Hreg w'. subst w'. unfold IndexFixingsManager.remove_fixing.
  rewrite (erase_present _ _ _ Hreg). simpl. split; [done|].
  assert (Hgone : store_of IndexFixingsManager.ns
                    (with_store IndexFixingsManager.ns
                       (delete index (store_of IndexFixingsManager.ns w)) w)
                  !! Str.lower index = None).
  { autorewrite with world. rewrite Hlow. apply lookup_delete_eq. }
  split; intros.
  - by rewrite get_fixing_absent.
  - by rewrite insert_fixing_absent.
Qed.

(** C8, with the names ["sofr"] and ["SOFR"] both registered:
    [remove_fixing("SOFR")] erases the entry ["SOFR"], and the readers, which
    lower-case the name, go on to use the series of ["sofr"]:
    [get_fixing("SOFR", d)] returns a fixing and [insert_fixing("SOFR", ...)]
    succeeds. *)
Theorem remove_fixing_leaves_lower_cased_series :
  let w1 := (IndexFixingsManager.register Sample.env_no_file "sofr" (PDict 1%positive)
               (Sample.two_dicts ∅ ∅)).2 in
  let w2 := (IndexFixingsManager.register Sample.env_no_file "SOFR" (PDict 2%positive)
               w1).2 in
  let w3 := (IndexFixingsManager.insert_fixing "sofr" Sample.d1
               (PFloat Sample.f125) w2).2 in
  let w4 := (IndexFixingsManager.remove_fixing "SOFR" None w3).2 in
  (IndexFixingsManager.register Sample.env_no_file "sofr" (PDict 1%positive)
     (Sample.two_dicts ∅ ∅)).1 = Ok tt /\
  (IndexFixingsManager.register Sample.env_no_file "SOFR" (PDict 2%positive) w1).1
  = Ok tt /\
  (IndexFixingsManager.insert_fixing "sofr" Sample.d1 (PFloat Sample.f125) w2).1
  = Ok tt /\
  (IndexFixingsManager.remove_fixing "SOFR" None w3).1 = Ok tt /\
  store_of IndexFixingsManager.ns w4 !! "SOFR" = None /\
  (IndexFixingsManager.get_fixing "SOFR" Sample.d1 w4).1 = Ok (PFloat Sample.f125) /\
  (IndexFixingsManager.insert_fixing "SOFR" Sample.d2 (PFloat Sample.f130) w4).1
  = Ok tt.
Proof. vm_compute. repeat split. Qed.

(** For a key that is lower-case already and registered with an empty dict,
    fixings can be managed in memory as C9 says. *)
Lemma fixings_in_memory_lower_key E w key l date fixing :
  Str.lower key = key ->
  csv_rows E (Str.path_join (fixing_path E) (key ++ ".csv")) = None ->
  store_of IndexFixingsManager.ns w !! key = None ->
  heap w !! l = Some ∅ ->
  let w1 := (IndexFixingsManager.register E key (PDict l) w).2 in
  let w2 := (IndexFixingsManager.insert_fixing key date fixing w1).2 in
  (IndexFixingsManager.register E key (PDict l) w).1 = Ok tt /\
  (IndexFixingsManager.insert_fixing key date fixing w1).1 = Ok tt /\
  (IndexFixingsManager.get_fixing key date w2).1 = Ok fixing.
Proof.
  intros Hlow Hfile Hk Hl w1 w2.
  assert (Hreg : IndexFixingsManager.register E key (PDict l) w
                 = (Ok tt, with_store IndexFixingsManager.ns
                             (<[key := PDict l]> (store_of IndexFixingsManager.ns w)) w)).
  { unfold IndexFixingsManager.register.
    erewrite bind_ok by (by apply register_fresh). by rewrite Hlow, Hfile. }
  assert (Hs1 : store_of IndexFixingsManager.ns w1 !! Str.lower key = Some (PDict l)).
  { subst w1. rewrite Hreg. simpl. autorewrite with world.
    by rewrite Hlow, lookup_insert_eq. }
  assert (Hl1 : heap w1 !! l = Some ∅) by (subst w1; by rewrite Hreg).
  pose proof (insert_fixing_run w1 key date l ∅ Hs1 Hl1 fixing) as Hins.
  rewrite lookup_empty in Hins.
  split; [by rewrite Hreg|]. split; [by rewrite Hins|].
  erewrite (get_fixing_run w2 key date l (<[KDate date := fixing]> ∅)).
  - by rewrite lookup_insert_eq.
  - subst w2. rewrite Hins. exact Hs1.
  - subst w2. rewrite Hins. simpl. by rewrite lookup_insert_eq.
Qed.

(** C9, on the key ["SOFR"] without a fixings file: the registration
    succeeds, and [insert_fixing("SOFR", ...)] and [get_fixing("SOFR", ...)]
    fail with NotFound, because the key is stored as given and looked up
    lower-cased. *)
Theorem unloaded_key_not_found_by_lower_name :
  let w1 := (IndexFixingsManager.register Sample.env_no_file "SOFR" (PDict 1%positive)
               (Sample.one_dict ∅)).2 in
  csv_rows Sample.env_no_file "fixings/sofr.csv" = None /\
  (IndexFixingsManager.register Sample.env_no_file "SOFR" (PDict 1%positive)
     (Sample.one_dict ∅)).1 = Ok tt /\
  store_of IndexFixingsManager.ns w1 !! "SOFR" = Some (PDict 1%positive) /\
  (IndexFixingsManager.insert_fixing "SOFR" Sample.d1 (PFloat Sample.f125) w1).1
  = Raise NotFound /\
  (IndexFixingsManager.get_fixing "SOFR" Sample.d1 w1).1 = Raise NotFound.
Proof. vm_compute. repeat split. Qed.

(** * Further properties *)

(** ** Casing and splitting of keys *)

Lemma upper_ascii_idem c : Str.upper_ascii (Str.upper_ascii c) = Str.upper_ascii c.
Proof. by destruct c as [[] [] [] [] [] [] [] []]. Qed.


Lemma lower_upper_ascii c : Str.lower_ascii (Str.upper_ascii c) = Str.lower_ascii c.
Proof. by destruct c as [[] [] [] [] [] [] [] []]. Qed.

Lemma upper_idem s : Str.upper (Str.upper s) = Str.upper s.
Proof. induction s as [|c s IH]; simpl; [done|]. by rewrite upper_ascii_idem, IH. Qed.


Lemma lower_upper s : Str.lower (Str.upper s) = Str.lower s.
Proof. induction s as [|c s IH]; simpl; [done|]. by rewrite lower_upper_ascii, IH. Qed.

Lemma split_nonempty sep s : Str.split sep s ≠ [].
Proof.
  destruct s as [|c s]; simpl; [done|].
  destruct (Ascii.eqb c sep); [done|]. by destruct (Str.split sep s).
Qed.

(** [(p + sep + t).split(sep) == p.split(sep) + t.split(sep)] *)
Lemma split_app sep p t :
  Str.split sep (p ++ String sep t) = (Str.split sep p ++ Str.split sep t)%list.
Proof.
  induction p as [|c p IH]; simpl.
  - by rewrite Ascii.eqb_refl.
  - destruct (Ascii.eqb c sep); [by rewrite IH|].
    rewrite IH. pose proof (split_nonempty sep p).
    by destruct (Str.split sep p).
Qed.

Lemma split_no_sep sep t :
  (forall n, String.get n t ≠ Some sep) -> Str.split sep t = [t].
Proof.
  induction t as [|c t IH]; intros H; simpl; [done|].
  destruct (Ascii.eqb_spec c sep) as [->|_].
  - by destruct (H 0%nat).
  - rewrite IH; [done|]. intros n. apply (H (S n)).
Qed.

Lemma last_app_nonempty {A} (l1 l2 : list A) d :
  l2 ≠ [] -> List.last (l1 ++ l2)%list d = List.last l2 d.
Proof.
  intros H. induction l1 as [|x l1 IH]; [done|].
  simpl. destruct (l1 ++ l2)%list eqn:Happ; [|done].
  apply app_eq_nil in Happ as [_ ->]. done.
Qed.

(** X1: the tenor candidate of line 31 is the part of the key after its last
    ['-']: when [t] has no ['-'], the candidate of [p + "-" + t] is [t]
    whatever [p] is, and the candidate of a key without ['-'] is the whole
    key. *)
Theorem last_segment_is_suffix_after_last_dash p t :
  (forall n, String.get n t ≠ Some "-"%char) ->
  Str.last_segment (p ++ "-" ++ t) = t /\ Str.last_segment t = t.
Proof.
  intros H. unfold Str.last_segment.
  change (p ++ "-" ++ t) with (p ++ String "-" t).
  rewrite split_app, last_app_nonempty by apply split_nonempty.
  by rewrite split_no_sep.
Qed.

Lemma last_segment_is_suffix_after_last_dash_witness :
  Str.last_segment ("USD-LIBOR" ++ "-" ++ "3M") = "3M".
Proof.
  apply (last_segment_is_suffix_after_last_dash "USD-LIBOR" "3M").
  intros [|[|[|n]]]; simpl; discriminate.
Defined.


(** ** IndexRegistry: registration and lookup *)

Lemma upper_eq_not_upper key s : Str.upper key ≠ key -> Str.upper s ≠ key.
Proof. intros Hne <-. apply Hne, upper_idem. Qed.

(** X3: round trip of the branch of line 28. For a new key and a class that
    builds an index without arguments, the registration succeeds and [get]
    returns the index for every casing of the key; lookups of keys with
    another upper-casing give what they gave before, and neither the dict
    objects nor the registries of other namespaces change. *)
Theorem index_register_direct_round_trip E w key name i :
  store_of IndexRegistry.ns w !! key = None ->
  ql_hasattr E name = true ->
  ql_new E name = Some i ->
  let w' := (IndexRegistry.register E key (PStr name) w).2 in
  (IndexRegistry.register E key (PStr name) w).1 = Ok tt /\
  (forall s, Str.upper s = Str.upper key ->
             (IndexRegistry.get s w').1 = Ok (PIndex i)) /\
  (forall s, Str.upper s ≠ Str.upper key ->
             (IndexRegistry.get s w').1 = (IndexRegistry.get s w).1) /\
  heap w' = heap w /\
  (forall ns', ns' ≠ IndexRegistry.ns -> store_of ns' w' = store_of ns' w).
Proof.
  intros Hk Hknown Hnew w'. subst w'.
  rewrite (index_register_direct E w key name Hk Hknown i Hnew). simpl.
  split; [done|]. split; [|split; [|split; [done|]]].
  - intros s Hs. rewrite index_get_run. autorewrite with world. simpl.
    by rewrite Hs, lookup_insert_eq.
  - intros s Hs. rewrite !index_get_run. autorewrite with world. simpl.
    rewrite !lookup_insert_ne; [done| |].
    + intros Heq. apply Hs. by rewrite Heq, upper_idem.
    + intros Heq. by apply Hs.
  - intros ns' Hns. by rewrite store_of_with_store_ne.
Qed.

Lemma index_register_direct_round_trip_witness :
  (IndexRegistry.get "sofr"
     (IndexRegistry.register Sample.env "Sofr" (PStr "Sofr") empty_world).2).1
  = Ok (PIndex (mkIndex "Sofr" None)).
Proof.
  refine (proj1 (proj2 (index_register_direct_round_trip Sample.env empty_world "Sofr"
                          "Sofr" (mkIndex "Sofr" None) _ _ _)) "sofr" _);
    vm_compute; reflexivity.
Defined.

(** X4: round trip of the branch of line 34 for an upper-case key. For a new
    key that is upper-case already, a class that needs a tenor and a suffix
    that is a term, the registration succeeds, the index is built from the
    suffix of the key, and [get] returns it for every casing of the key. *)
Theorem index_register_term_upper_round_trip E w key name i :
  store_of IndexRegistry.ns w !! key = None ->
  ql_hasattr E name = true ->
  ql_new E name = None ->
  is_term E (Str.last_segment key) = Some true ->
  ql_new_term E name (Str.last_segment key) = Some i ->
  Str.upper key = key ->
  let w' := (IndexRegistry.register E key (PStr name) w).2 in
  (IndexRegistry.register E key (PStr name) w).1 = Ok tt /\
  (forall s, Str.upper s = Str.upper key ->
             (IndexRegistry.get s w').1 = Ok (PIndex i)).
Proof.
  intros Hk Hknown Hnew Hterm Hnewt Hup w'. subst w'.
  rewrite (index_register_term E w key name Hk Hknown i Hnew Hterm Hnewt). simpl.
  split; [done|]. intros s Hs. rewrite index_get_run. autorewrite with world.
  simpl. by rewrite Hs, Hup, lookup_insert_eq.
Qed.

Lemma index_register_term_upper_round_trip_witness :
  (IndexRegistry.get "usd-libor-6m"
     (IndexRegistry.register Sample.env "USD-LIBOR-6M" (PStr "USDLibor")
        empty_world).2).1
  = Ok (PIndex (mkIndex "USDLibor" (Some "6M"))).
Proof.
  refine (proj2 (index_register_term_upper_round_trip Sample.env empty_world
                   "USD-LIBOR-6M" "USDLibor" (mkIndex "USDLibor" (Some "6M"))
                   _ _ _ _ _ _) "usd-libor-6m" _);
    vm_compute; reflexivity.
Defined.

(** X5: the branch of line 34 for a key that is not upper-case. The
    registration succeeds and stores the index under the key as given, where
    [get] never looks: for every argument, [get] does after the registration
    what it did before it. *)
Theorem index_register_term_invisible_to_get E w key name i :
  store_of IndexRegistry.ns w !! key = None ->
  ql_hasattr E name = true ->
  ql_new E name = None ->
  is_term E (Str.last_segment key) = Some true ->
  ql_new_term E name (Str.last_segment key) = Some i ->
  Str.upper key ≠ key ->
  let w' := (IndexRegistry.register E key (PStr name) w).2 in
  (IndexRegistry.register E key (PStr name) w).1 = Ok tt /\
  store_of IndexRegistry.ns w' !! key = Some (PIndex i) /\
  (forall s, IndexRegistry.get s w' = ((IndexRegistry.get s w).1, w')).
Proof.
  intros Hk Hknown Hnew Hterm Hnewt Hup w'. subst w'.
  rewrite (index_register_term E w key name Hk Hknown i Hnew Hterm Hnewt). simpl.
  split; [done|]. split; [autorewrite with world; by rewrite lookup_insert_eq|].
  intros s. rewrite !index_get_run. autorewrite with world. simpl.
  rewrite lookup_insert_ne; [done|].
  intros Heq. by apply (upper_eq_not_upper key s Hup).
Qed.

Lemma index_register_term_invisible_to_get_witness :
  (IndexRegistry.get "usd-libor-6M"
     (IndexRegistry.register Sample.env "usd-libor-6M" (PStr "USDLibor")
        empty_world).2).1
  = (IndexRegistry.get "usd-libor-6M" empty_world).1.
Proof.
  pose proof (index_register_term_invisible_to_get Sample.env empty_world
                "usd-libor-6M" "USDLibor" (mkIndex "USDLibor" (Some "6M")))
    as H.
  destruct H as (_ & _ & H); [vm_compute; reflexivity ..|discriminate|].
  by rewrite H.
Defined.

(** X6: an index type the catalogue does not have. For a new key and a type
    name that is not an attribute of the catalogue, the registration fails
    with UnknownIndexType, stores no index and touches no dict object. *)
Theorem index_register_unknown_type E w key name :
  store_of IndexRegistry.ns w !! key = None ->
  ql_hasattr E name = false ->
  let w' := (IndexRegistry.register E key (PStr name) w).2 in
  (IndexRegistry.register E key (PStr name) w).1 = Raise UnknownIndexType /\
  (forall k i, store_of IndexRegistry.ns w' !! k = Some (PIndex i) ->
               store_of IndexRegistry.ns w !! k = Some (PIndex i)) /\
  heap w' = heap w.
Proof.
  intros Hk Hunknown w'.
  assert (IndexRegistry.register E key (PStr name) w
          = (Raise UnknownIndexType,
             with_store IndexRegistry.ns
               (<[key := PStr name]> (store_of IndexRegistry.ns w)) w)) as Hrun.
  { unfold IndexRegistry.register.
    erewrite bind_ok by (by apply register_fresh).
    erewrite bind_raise; [reflexivity|]. by rewrite Hunknown. }
  subst w'. rewrite Hrun. simpl. split; [done|]. split; [|done].
  intros k i. autorewrite with world. destruct (decide (k = key)) as [->|Hne].
  - by rewrite lookup_insert_eq.
  - by rewrite lookup_insert_ne.
Qed.

Lemma index_register_unknown_type_witness :
  (IndexRegistry.register Sample.env "EUR-ESTR" (PStr "Estr") empty_world).1
  = Raise UnknownIndexType.
Proof.
  refine (proj1 (index_register_unknown_type Sample.env empty_world "EUR-ESTR"
                   "Estr" _ _)); vm_compute; reflexivity.
Defined.

(** ** Registering a key twice *)

(** X7: every [register] starts with the base registration, so for a key
    that is in the registry already each of them fails with DuplicateKey
    before it does anything of its own: no index class is looked up, no file
    is read, no constructor is called, and the world is the one from before.
    [DataConventionRegistry.register] has copied the spec by then; the copy
    is a new object no registry refers to. *)
Theorem register_twice_fails E w key value :
  (is_Some (store_of IndexRegistry.ns w !! key) ->
   IndexRegistry.register E key value w = (Raise DuplicateKey, w)) /\
  (is_Some (store_of IndexFixingsManager.ns w !! key) ->
   IndexFixingsManager.register E key value w = (Raise DuplicateKey, w)) /\
  (is_Some (store_of DataConventionRegFunction.ns w !! key) ->
   DataConventionRegFunction.register key value w = (Raise DuplicateKey, w) /\
   DataIdentifierRegistry.register key value w = (Raise DuplicateKey, w)) /\
  (is_Some (store_of DataConventionRegistry.ns w !! key) ->
   forall l d, value = PDict l -> heap w !! l = Some d ->
     DataConventionRegistry.register E key value w
     = (Raise DuplicateKey, with_dict (fresh (dom (heap w))) d w)).
Proof.
  split; [|split; [|split]]; intros Hk.
  - unfold IndexRegistry.register. erewrite bind_raise; [reflexivity|].
    by apply register_present.
  - unfold IndexFixingsManager.register. erewrite bind_raise; [reflexivity|].
    by apply register_present.
  - split.
    + unfold DataConventionRegFunction.register.
      erewrite bind_raise; [reflexivity|]. by apply register_present.
    + unfold DataIdentifierRegistry.register.
      erewrite bind_raise; [reflexivity|]. by apply register_present.
  - intros l d -> Hl. unfold DataConventionRegistry.register.
    erewrite bind_ok by (by apply copy_run).
    erewrite bind_raise; [reflexivity|]. by apply register_present.
Qed.

Lemma register_twice_fails_witness :
  (IndexRegistry.register Sample.env "SOFR" (PStr "Sofr")
     (IndexRegistry.register Sample.env "SOFR" (PStr "Sofr") empty_world).2).1
  = Raise DuplicateKey.
Proof.
  rewrite (proj1 (register_twice_fails Sample.env
                    (IndexRegistry.register Sample.env "SOFR" (PStr "Sofr")
                       empty_world).2 "SOFR" (PStr "Sofr"))).
  - reflexivity.
  - vm_compute. eauto.
Defined.

(** ** The pass-through registries *)

Lemma function_register_fresh k v w :
  store_of "" w !! k = None ->
  DataConventionRegFunction.register k v w
  = (Ok tt, with_store "" (<[k := v]> (store_of "" w)) w).
Proof.
  intros Hk. unfold DataConventionRegFunction.register, DataConventionRegFunction.ns.
  erewrite bind_ok by (by apply register_fresh).
  rewrite map_set_run. autorewrite with world. by rewrite insert_insert_eq.
Qed.

Lemma identifier_register_fresh k v w :
  store_of "" w !! k = None ->
  DataIdentifierRegistry.register k v w
  = (Ok tt, with_store "" (<[k := v]> (store_of "" w)) w).
Proof.
  intros Hk. unfold DataIdentifierRegistry.register, DataIdentifierRegistry.ns.
  erewrite bind_ok by (by apply register_fresh).
  rewrite map_set_run. autorewrite with world. by rewrite insert_insert_eq.
Qed.

(** X8: round trip of [DataConventionRegFunction] and
    [DataIdentifierRegistry]. For a new key, [register(k, v)] succeeds and
    [get(k)] returns [v] as it was given; every other key of the registry,
    every other registry and every dict object is as before. *)
Theorem pass_through_round_trip w k v :
  store_of "" w !! k = None ->
  let wf := (DataConventionRegFunction.register k v w).2 in
  let wi := (DataIdentifierRegistry.register k v w).2 in
  (DataConventionRegFunction.register k v w).1 = Ok tt /\
  (DataIdentifierRegistry.register k v w).1 = Ok tt /\
  (DataConventionRegFunction.get (PStr k) wf).1 = Ok v /\
  (DataIdentifierRegistry.get (PStr k) wi).1 = Ok v /\
  (forall k', k' ≠ k ->
     (DataConventionRegFunction.get (PStr k') wf).1
     = (DataConventionRegFunction.get (PStr k') w).1 /\
     (DataIdentifierRegistry.get (PStr k') wi).1
     = (DataIdentifierRegistry.get (PStr k') w).1) /\
  (forall ns', ns' ≠ "" ->
     store_of ns' wf = store_of ns' w /\ store_of ns' wi = store_of ns' w) /\
  heap wf = heap w /\ heap wi = heap w.
Proof.
  intros Hk wf wi. subst wf wi.
  rewrite (function_register_fresh k v w Hk), (identifier_register_fresh k v w Hk).
  simpl. unfold DataConventionRegFunction.get, DataIdentifierRegistry.get,
    DataConventionRegFunction.ns, DataIdentifierRegistry.ns.
  repeat split; try done.
  - rewrite get_run. autorewrite with world. by rewrite lookup_insert_eq.
  - rewrite get_run. autorewrite with world. by rewrite lookup_insert_eq.
  - rewrite !get_run. autorewrite with world. simpl. by rewrite lookup_insert_ne.
  - rewrite !get_run. autorewrite with world. simpl. by rewrite lookup_insert_ne.
  - by rewrite store_of_with_store_ne.
  - by rewrite store_of_with_store_ne.
Qed.

Lemma pass_through_round_trip_witness :
  (DataIdentifierRegistry.get (PStr "USD")
     (DataIdentifierRegistry.register "USD" (PInt 840) Sample.conv_world).2).1
  = Ok (PInt 840).
Proof.
  refine (proj1 (proj2 (proj2 (proj2
            (pass_through_round_trip Sample.conv_world "USD" (PInt 840) _))))).
  vm_compute. reflexivity.
Defined.

(** ** DataConventionRegistry: building a convention *)

Lemma call_run E f key l d w :
  heap w !! l = Some d ->
  py_call E (PFunc f) key (PDict l) w
  = (match construct E f key d with
     | Some obj => Ok obj
     | None => Raise ExternalError
     end, with_call (Construct f key) w).
Proof.
  intros Hl. unfold py_call, log, deref, mbind, M_bind. simpl. rewrite Hl.
  by destruct (construct E f key d).
Qed.

(** The registration up to the lookup of the constructor: the spec is
    copied, the copy is registered and its ["type"] item is popped. *)
Lemma convention_register_until_lookup E w key l d type :
  heap w !! l = Some d ->
  d !! KStr "type" = Some type ->
  store_of DataConventionRegistry.ns w !! key = None ->
  let l' := fresh (dom (heap w)) in
  let w3 := with_dict l' (delete (KStr "type") d)
              (with_store DataConventionRegistry.ns
                 (<[key := PDict l']> (store_of DataConventionRegistry.ns w))
                 (with_dict l' d w)) in
  DataConventionRegistry.register E key (PDict l) w
  = (func ← DataConventionRegFunction.get type;
     obj ← py_call E func key (PDict l');
     map_set DataConventionRegistry.ns key obj) w3.
Proof.
  intros Hl Ht Hk l' w3. unfold DataConventionRegistry.register.
  erewrite bind_ok by (by apply copy_run).
  erewrite bind_ok by (by apply register_fresh).
  autorewrite with world. fold l'.
  erewrite bind_ok
    by (erewrite getitem_run by (simpl; apply lookup_insert_eq); by rewrite Ht).
  erewrite bind_ok
    by (erewrite pop_run by (simpl; apply lookup_insert_eq); by rewrite Ht).
  reflexivity.
Qed.

(** X9: a successful [DataConventionRegistry.register]. For a new key and a
    spec whose ["type"] names a registered constructor, the constructor is
    looked up once and called once, with the key and with the items of the
    spec without the ["type"] item; what it returns is stored under the key
    in place of the spec, and [get(key)] returns it. The registry of
    constructors is unchanged. *)
Theorem convention_register_builds_object E w key l d t f obj :
  heap w !! l = Some d ->
  d !! KStr "type" = Some (PStr t) ->
  store_of DataConventionRegistry.ns w !! key = None ->
  store_of DataConventionRegFunction.ns w !! t = Some (PFunc f) ->
  construct E f key (delete (KStr "type") d) = Some obj ->
  let w' := (DataConventionRegistry.register E key (PDict l) w).2 in
  (DataConventionRegistry.register E key (PDict l) w).1 = Ok tt /\
  store_of DataConventionRegistry.ns w'
  = <[key := obj]> (store_of DataConventionRegistry.ns w) /\
  (DataConventionRegistry.get (PStr key) w').1 = Ok obj /\
  calls w' = (calls w ++ [Lookup DataConventionRegFunction.ns (PStr t);
                          Construct f key])%list /\
  store_of DataConventionRegFunction.ns w' = store_of DataConventionRegFunction.ns w.
Proof.
  intros Hl Ht Hk Hf Hc w'. subst w'.
  rewrite (convention_register_until_lookup E w key l d (PStr t) Hl Ht Hk).
  unfold DataConventionRegFunction.get.
  erewrite bind_ok.
  2: { rewrite get_run. autorewrite with world.
       rewrite store_of_with_store_ne by done. autorewrite with world.
       by rewrite Hf. }
  erewrite bind_ok.
  2: { erewrite call_run by (simpl; apply lookup_insert_eq). by rewrite Hc. }
  rewrite map_set_run. simpl. split; [done|].
  autorewrite with world. rewrite insert_insert_eq.
  split; [done|]. split.
  - unfold DataConventionRegistry.get. rewrite get_run. autorewrite with world.
    by rewrite lookup_insert_eq.
  - split; [by rewrite <- app_assoc|].
    rewrite store_of_with_store_ne by done. autorewrite with world.
    by rewrite store_of_with_store_ne.
Qed.

Lemma convention_register_builds_object_witness :
  (DataConventionRegistry.get (PStr "30/360")
     (DataConventionRegistry.register Sample.env "30/360" (PDict 1%positive)
        Sample.conv_world).2).1
  = Ok (PObj "Actual360" "30/360").
Proof.
  refine (proj1 (proj2 (proj2
            (convention_register_builds_object Sample.env Sample.conv_world "30/360"
               1%positive Sample.spec_actual360 "Actual360" "Actual360"
               (PObj "Actual360" "30/360") _ _ _ _ _))));
    vm_compute; reflexivity.
Defined.

(** X10: a spec whose ["type"] names no constructor. For a new key, when the
    registry of constructors has no entry for the type the registration fails
    with NotFound, and when the entry is not a callable it fails with
    TypeError; in both cases the lookup is the only call made, no constructor
    runs, and the key stays registered with the copy of the spec, which has
    lost its ["type"] item. *)
Theorem convention_register_without_constructor E w key l d t :
  heap w !! l = Some d ->
  d !! KStr "type" = Some (PStr t) ->
  store_of DataConventionRegistry.ns w !! key = None ->
  (forall f, store_of DataConventionRegFunction.ns w !! t ≠ Some (PFunc f)) ->
  let w' := (DataConventionRegistry.register E key (PDict l) w).2 in
  let l' := fresh (dom (heap w)) in
  (DataConventionRegistry.register E key (PDict l) w).1
  = Raise (match store_of DataConventionRegFunction.ns w !! t with
           | None => NotFound
           | Some _ => TypeError
           end) /\
  calls w' = (calls w ++ [Lookup DataConventionRegFunction.ns (PStr t)])%list /\
  store_of DataConventionRegistry.ns w' !! key = Some (PDict l') /\
  heap w' !! l' = Some (delete (KStr "type") d).
Proof.
  intros Hl Ht Hk Hf w' l'. subst w'.
  rewrite (convention_register_until_lookup E w key l d (PStr t) Hl Ht Hk).
  fold l'. unfold DataConventionRegFunction.get.
  set (w3 := with_dict l' _ _).
  assert (Hs3 : store_of DataConventionRegFunction.ns w3
                = store_of DataConventionRegFunction.ns w).
  { subst w3. autorewrite with world. rewrite store_of_with_store_ne by done.
    by autorewrite with world. }
  assert (Hfacts :
            store_of DataConventionRegistry.ns
              (with_call (Lookup DataConventionRegFunction.ns (PStr t)) w3) !! key
            = Some (PDict l') /\
            heap (with_call (Lookup DataConventionRegFunction.ns (PStr t)) w3) !! l'
            = Some (delete (KStr "type") d)).
  { subst w3. autorewrite with world. split; simpl; by rewrite lookup_insert_eq. }
  destruct (store_of DataConventionRegFunction.ns w !! t) as [v|] eqn:Hv.
  - erewrite bind_ok by (by rewrite get_run, Hs3, Hv).
    assert (Hcall : forall w0, py_call E v key (PDict l') w0 = (Raise TypeError, w0)).
    { intros w0. destruct v; try reflexivity. by destruct (Hf name). }
    rewrite (bind_raise _ _ _ _ _ (Hcall _)). by simpl.
  - assert (Hget : Registry.get DataConventionRegFunction.ns (PStr t) w3
                   = (Raise NotFound,
                      with_call (Lookup DataConventionRegFunction.ns (PStr t)) w3))
      by (by rewrite get_run, Hs3, Hv).
    rewrite (bind_raise _ _ _ _ _ Hget). by simpl.
Qed.

Lemma convention_register_without_constructor_witness :
  (DataConventionRegistry.register Sample.env "30/360" (PDict 1%positive)
     (Sample.one_dict Sample.spec_actual360)).1
  = Raise NotFound.
Proof.
  refine (proj1 (convention_register_without_constructor Sample.env
                   (Sample.one_dict Sample.spec_actual360) "30/360" 1%positive
                   Sample.spec_actual360 "Actual360" _ _ _ _)).
  - vm_compute. reflexivity.
  - vm_compute. reflexivity.
  - vm_compute. reflexivity.
  - intros f. vm_compute. discriminate.
Defined.

(** ** IndexFixingsManager: reading, inserting and removing fixings *)

Lemma exist_fixing_run w index date l series :
  store_of IndexFixingsManager.ns w !! Str.lower index = Some (PDict l) ->
  heap w !! l = Some series ->
  IndexFixingsManager.exist_fixing index date w
  = (Ok (bool_decide (is_Some (series !! KDate date))),
     with_call (Lookup IndexFixingsManager.ns (PStr (Str.lower index))) w).
Proof.
  intros Hreg Hl. unfold IndexFixingsManager.exist_fixing.
  erewrite bind_ok by (by rewrite get_run, Hreg).
  by erewrite contains_run.
Qed.


(** X12: what [insert_fixing] leaves alone. On a registered series, after
    [insert_fixing(index, d, v)] the date [d] exists, every other date reads
    as before, and no registry and no other dict object has changed. *)
Theorem insert_fixing_frame w index date fixing l series :
  store_of IndexFixingsManager.ns w !! Str.lower index = Some (PDict l) ->
  heap w !! l = Some series ->
  let w' := (IndexFixingsManager.insert_fixing index date fixing w).2 in
  (IndexFixingsManager.exist_fixing index date w').1 = Ok true /\
  (forall d', d' ≠ date ->
     (IndexFixingsManager.get_fixing index d' w').1
     = (IndexFixingsManager.get_fixing index d' w).1 /\
     (IndexFixingsManager.exist_fixing index d' w').1
     = (IndexFixingsManager.exist_fixing index d' w).1) /\
  stores w' = stores w /\
  (forall l0, l0 ≠ l -> heap w' !! l0 = heap w !! l0).
Proof.
  intros Hreg Hl w'.
  pose proof (insert_fixing_run w index date l series Hreg Hl fixing) as Hins.
  assert (exists s', heap w' !! l = Some s'
                     /\ is_Some (s' !! KDate date)
                     /\ (forall d', d' ≠ date -> s' !! KDate d' = series !! KDate d')
                     /\ stores w' = stores w
                     /\ (forall l0, l0 ≠ l -> heap w' !! l0 = heap w !! l0))
    as (s' & Hl' & Hd & Hframe & Hst & Hheap).
  { subst w'. rewrite Hins. simpl.
    destruct (series !! KDate date) as [x|] eqn:Hx.
    - exists series. rewrite Hx. eauto.
    - exists (<[KDate date := fixing]> series). simpl.
      rewrite !lookup_insert_eq. repeat split; eauto.
      + intros d' Hne. rewrite lookup_insert_ne; [done|]. by intros [= ->].
      + intros l0 Hne. by rewrite lookup_insert_ne. }
  assert (Hreg' : store_of IndexFixingsManager.ns w' !! Str.lower index
                  = Some (PDict l)) by (unfold store_of; by rewrite Hst).
  split; [|split; [|done]].
  - rewrite (exist_fixing_run w' index date l s' Hreg' Hl').
    simpl. by rewrite bool_decide_eq_true_2.
  - intros d' Hne.
    rewrite (get_fixing_run w' index d' l s' Hreg' Hl'),
      (get_fixing_run w index d' l series Hreg Hl),
      (exist_fixing_run w' index d' l s' Hreg' Hl'),
      (exist_fixing_run w index d' l series Hreg Hl).
    simpl. by rewrite (Hframe d' Hne).
Qed.

Lemma insert_fixing_frame_witness :
  let w0 := (IndexFixingsManager.register Sample.env_no_file "sofr" (PDict 1%positive)
               (Sample.one_dict {[ KDate Sample.d1 := PFloat Sample.f125 ]})).2 in
  (IndexFixingsManager.get_fixing "sofr" Sample.d1
     (IndexFixingsManager.insert_fixing "sofr" Sample.d2 (PFloat Sample.f130) w0).2).1
  = (IndexFixingsManager.get_fixing "sofr" Sample.d1 w0).1.
Proof.
  intros w0.
  refine (proj1 (proj1 (proj2
            (insert_fixing_frame w0 "sofr" Sample.d2 (PFloat Sample.f130) 1%positive
               {[ KDate Sample.d1 := PFloat Sample.f125 ]} _ _)) Sample.d1 _)).
  - vm_compute. reflexivity.
  - vm_compute. reflexivity.
  - discriminate.
Defined.

Lemma remove_fixing_date_run w index date l series :
  store_of IndexFixingsManager.ns w !! index = Some (PDict l) ->
  heap w !! l = Some series ->
  IndexFixingsManager.remove_fixing index (Some date) w
  = match series !! KDate date with
    | Some _ =>
        (Ok tt, with_dict l (delete (KDate date) series)
                  (with_call (Lookup IndexFixingsManager.ns (PStr index)) w))
    | None =>
        (Raise MissingField, with_call (Lookup IndexFixingsManager.ns (PStr index)) w)
    end.
Proof.
  intros Hreg Hl. unfold IndexFixingsManager.remove_fixing.
  erewrite bind_ok by (by rewrite get_run, Hreg).
  destruct (series !! KDate date) as [x|] eqn:Hd.
  - erewrite bind_ok by (erewrite pop_run by done; by rewrite Hd). done.
  - erewrite bind_raise; [done|]. erewrite pop_run by done. by rewrite Hd.
Qed.

(** X13: [remove_fixing] with a date. On a series registered under the name
    as given, it removes that date and no other: it succeeds when the series
    holds the date and fails with the [KeyError] of [pop] when it does not,
    and afterwards the series is the old one without the date, while the
    registries and the other dict objects are as before. *)
Theorem remove_fixing_date_removes_one w index date l series :
  store_of IndexFixingsManager.ns w !! index = Some (PDict l) ->
  heap w !! l = Some series ->
  let w' := (IndexFixingsManager.remove_fixing index (Some date) w).2 in
  (IndexFixingsManager.remove_fixing index (Some date) w).1
  = (if bool_decide (is_Some (series !! KDate date)) then Ok tt
     else Raise MissingField) /\
  heap w' !! l = Some (delete (KDate date) series) /\
  stores w' = stores w /\
  (forall l0, l0 ≠ l -> heap w' !! l0 = heap w !! l0).
Proof.
  intros Hreg Hl w'. subst w'.
  rewrite (remove_fixing_date_run w index date l series Hreg Hl).
  destruct (series !! KDate date) as [x|] eqn:Hd; simpl.
  - rewrite lookup_insert_eq. repeat split; try done.
    intros l0 Hne. by rewrite lookup_insert_ne.
  - by rewrite Hl, delete_id.
Qed.

Lemma remove_fixing_date_removes_one_witness :
  let w0 := (IndexFixingsManager.register Sample.env_no_file "sofr" (PDict 1%positive)
               (Sample.one_dict {[ KDate Sample.d1 := PFloat Sample.f125 ]})).2 in
  heap (IndexFixingsManager.remove_fixing "sofr" (Some Sample.d1) w0).2 !! 1%positive
  = Some (delete (KDate Sample.d1) {[ KDate Sample.d1 := PFloat Sample.f125 ]}).
Proof.
  intros w0.
  refine (proj1 (proj2
            (remove_fixing_date_removes_one w0 "sofr" Sample.d1 1%positive
               {[ KDate Sample.d1 := PFloat Sample.f125 ]} _ _)));
    vm_compute; reflexivity.
Defined.

(** X14: a name that is not registered. When the registry has no entry for
    the name as given, [remove_fixing] fails with NotFound with and without a
    date; when it has none for the lower-cased name, [insert_fixing],
    [exist_fixing] and [get_fixing] fail with NotFound. In each case the
    registries and the dict objects are as before. *)
Theorem fixings_of_unregistered_name w index date fixing :
  (store_of IndexFixingsManager.ns w !! index = None ->
   forall date',
     (IndexFixingsManager.remove_fixing index date' w).1 = Raise NotFound /\
     heap (IndexFixingsManager.remove_fixing index date' w).2 = heap w /\
     stores (IndexFixingsManager.remove_fixing index date' w).2 = stores w) /\
  (store_of IndexFixingsManager.ns w !! Str.lower index = None ->
   (IndexFixingsManager.insert_fixing index date fixing w).1 = Raise NotFound /\
   (IndexFixingsManager.exist_fixing index date w).1 = Raise NotFound /\
   (IndexFixingsManager.get_fixing index date w).1 = Raise NotFound /\
   heap (IndexFixingsManager.insert_fixing index date fixing w).2 = heap w /\
   stores (IndexFixingsManager.insert_fixing index date fixing w).2 = stores w).
Proof.
  split; intros Hk.
  - intros [d|]; unfold IndexFixingsManager.remove_fixing.
    + pose proof (get_run IndexFixingsManager.ns index w) as Hget.
      rewrite Hk in Hget. by rewrite (bind_raise _ _ _ _ _ Hget).
    + unfold Registry.erase, get_store, mbind, M_bind.
      rewrite bool_decide_eq_false_2; [done|]. rewrite Hk. by intros [? ?].
  - by rewrite insert_fixing_absent, exist_fixing_absent, get_fixing_absent.
Qed.

Lemma fixings_of_unregistered_name_witness :
  (IndexFixingsManager.remove_fixing "sofr" None empty_world).1 = Raise NotFound /\
  (IndexFixingsManager.get_fixing "sofr" Sample.d1 empty_world).1 = Raise NotFound.
Proof.
  pose proof (fixings_of_unregistered_name empty_world "sofr" Sample.d1 PNone)
    as [Hr Hg].
  split.
  - apply Hr. vm_compute. reflexivity.
  - apply Hg. vm_compute. reflexivity.
Defined.

(** X15: inserting and removing a date. On a series registered under a
    lower-case name that does not hold the date, [insert_fixing] followed by
    [remove_fixing] of the date succeeds and gives back the series as it
    was; [get_fixing] then fails with NotFound. *)
Theorem insert_then_remove_fixing w index date fixing l series :
  Str.lower index = index ->
  store_of IndexFixingsManager.ns w !! index = Some (PDict l) ->
  heap w !! l = Some series ->
  series !! KDate date = None ->
  let w1 := (IndexFixingsManager.insert_fixing index date fixing w).2 in
  let w2 := (IndexFixingsManager.remove_fixing index (Some date) w1).2 in
  (IndexFixingsManager.get_fixing index date w1).1 = Ok fixing /\
  (IndexFixingsManager.remove_fixing index (Some date) w1).1 = Ok tt /\
  heap w2 !! l = Some series /\
  (IndexFixingsManager.get_fixing index date w2).1 = Raise NotFound.
Proof.
  intros Hlow Hreg Hl Hd w1 w2.
  assert (Hreg0 : store_of IndexFixingsManager.ns w !! Str.lower index
                  = Some (PDict l)) by (by rewrite Hlow).
  pose proof (insert_fixing_run w index date l series Hreg0 Hl fixing) as Hins.
  rewrite Hd in Hins.
  assert (Hl1 : heap w1 !! l = Some (<[KDate date := fixing]> series)).
  { subst w1. rewrite Hins. simpl. by rewrite lookup_insert_eq. }
  assert (Hreg1 : store_of IndexFixingsManager.ns w1 !! index = Some (PDict l)).
  { subst w1. by rewrite Hins. }
  assert (Hreg1' : store_of IndexFixingsManager.ns w1 !! Str.lower index
                   = Some (PDict l)) by (by rewrite Hlow).
  pose proof (remove_fixing_date_run w1 index date l _ Hreg1 Hl1) as Hrem.
  rewrite lookup_insert_eq, delete_insert_id in Hrem by done.
  assert (Hl2 : heap w2 !! l = Some series).
  { subst w2. rewrite Hrem. simpl. by rewrite lookup_insert_eq. }
  assert (Hreg2 : store_of IndexFixingsManager.ns w2 !! Str.lower index
                  = Some (PDict l)).
  { subst w2. rewrite Hrem. exact Hreg1'. }
  split; [|split; [by rewrite Hrem|split; [done|]]].
  - rewrite (get_fixing_run w1 index date l _ Hreg1' Hl1).
    by rewrite lookup_insert_eq.
  - rewrite (get_fixing_run w2 index date l series Hreg2 Hl2). by rewrite Hd.
Qed.

Lemma insert_then_remove_fixing_witness :
  let w0 := (IndexFixingsManager.register Sample.env_no_file "sofr" (PDict 1%positive)
               (Sample.one_dict ∅)).2 in
  let w1 := (IndexFixingsManager.insert_fixing "sofr" Sample.d1
               (PFloat Sample.f125) w0).2 in
  heap (IndexFixingsManager.remove_fixing "sofr" (Some Sample.d1) w1).2 !! 1%positive
  = Some ∅.
Proof.
  intros w0 w1.
  refine (proj1 (proj2 (proj2
            (insert_then_remove_fixing w0 "sofr" Sample.d1 (PFloat Sample.f125)
               1%positive ∅ _ _ _ _))));
    vm_compute; reflexivity.
Defined.

(** ** IndexFixingsManager: loading the fixings file *)

Lemma load_line_malformed E key row w :
  IndexFixingsManager.read_line E row = None ->
  IndexFixingsManager.load_line E key row w = (Raise MalformedRecord, w).
Proof.
  unfold IndexFixingsManager.read_line, IndexFixingsManager.load_line,
    IndexFixingsManager.column, IndexFixingsManager.parse, mbind at 5 6 7 8, M_bind.
  destruct (row !! "date") as [ds|]; simpl; [|done].
  destruct (strptime E ds) as [d|]; simpl; [|done].
  destruct (row !! "fixing") as [fs|]; simpl; [|done].
  destruct (float_of_str E fs) as [x|]; simpl; [|done].
  discriminate.
Qed.

Lemma load_line_readable E key row w p :
  IndexFixingsManager.read_line E row = Some p ->
  IndexFixingsManager.load_line E key row w
  = (series ← IndexFixingsManager.setdefault (Str.upper key);
     py_setitem series (KDate p.1) (PFloat p.2)) w.
Proof.
  unfold IndexFixingsManager.read_line, IndexFixingsManager.load_line,
    IndexFixingsManager.column, IndexFixingsManager.parse, mbind at 5 6 7 8, M_bind.
  destruct (row !! "date") as [ds|]; simpl; [|done].
  destruct (strptime E ds) as [d|]; simpl; [|done].
  destruct (row !! "fixing") as [fs|]; simpl; [|done].
  destruct (float_of_str E fs) as [x|]; simpl; [|done].
  by intros [= <-].
Qed.

(** A readable row when the series exists: one assignment on the series. *)
Lemma load_line_existing E key row w p l s :
  IndexFixingsManager.read_line E row = Some p ->
  store_of IndexFixingsManager.ns w !! Str.upper key = Some (PDict l) ->
  heap w !! l = Some s ->
  IndexFixingsManager.load_line E key row w
  = (Ok tt, with_dict l (<[KDate p.1 := PFloat p.2]> s) w).
Proof.
  intros Hp Hreg Hl. rewrite (load_line_readable E key row w p Hp).
  unfold IndexFixingsManager.setdefault, get_store, mbind, M_bind.
  rewrite Hreg. unfold mret, M_ret. cbv beta iota.
  by rewrite (setitem_run l s _ _ w Hl).
Qed.

(** A readable row when the registry has no series yet: the series is
    created, registered under the upper-cased key, and assigned to. *)
Lemma load_line_first E key row w p :
  IndexFixingsManager.read_line E row = Some p ->
  store_of IndexFixingsManager.ns w !! Str.upper key = None ->
  IndexFixingsManager.load_line E key row w
  = (Ok tt,
     with_dict (fresh (dom (heap w))) {[ KDate p.1 := PFloat p.2 ]}
       (with_store IndexFixingsManager.ns
          (<[Str.upper key := PDict (fresh (dom (heap w)))]>
             (store_of IndexFixingsManager.ns w))
          (with_dict (fresh (dom (heap w))) ∅ w))).
Proof.
  intros Hp Hreg. rewrite (load_line_readable E key row w p Hp).
  unfold IndexFixingsManager.setdefault, get_store, put_store, alloc, mbind, M_bind.
  rewrite Hreg. unfold mret, M_ret. cbv beta iota.
  erewrite setitem_run by (simpl; apply lookup_insert_eq).
  by rewrite insert_empty.
Qed.

(** The loop over the rows when the series exists: the readable rows are
    assigned in their order, and the first row that cannot be read stops the
    loop with MalformedRecord. *)
Lemma load_existing E key l rows : forall w s,
  store_of IndexFixingsManager.ns w !! Str.upper key = Some (PDict l) ->
  heap w !! l = Some s ->
  exists w',
    IndexFixingsManager.load E key rows w
    = (if IndexFixingsManager.all_readable E rows then Ok tt
       else Raise MalformedRecord, w') /\
    heap w' !! l
    = Some (IndexFixingsManager.assign_all s (IndexFixingsManager.readable E rows)) /\
    stores w' = stores w /\
    (forall l0, l0 ≠ l -> heap w' !! l0 = heap w !! l0).
Proof.
  induction rows as [|row rows IH]; intros w s Hreg Hl; simpl.
  - exists w. eauto.
  - destruct (IndexFixingsManager.read_line E row) as [p|] eqn:Hp.
    + rewrite bool_decide_eq_true_2 by eauto. simpl.
      erewrite bind_ok by (by eapply load_line_existing).
      destruct (IH (with_dict l (<[KDate p.1 := PFloat p.2]> s) w)
                  (<[KDate p.1 := PFloat p.2]> s))
        as (w' & Hrun & Hh & Hst & Hfr); [done|simpl; apply lookup_insert_eq|].
      exists w'. split; [done|]. split; [done|]. split; [done|].
      intros l0 Hne. rewrite (Hfr l0 Hne). simpl. by rewrite lookup_insert_ne.
    + rewrite bool_decide_eq_false_2 by (by intros [? ?]). simpl.
      erewrite bind_raise by (by apply load_line_malformed).
      exists w. eauto.
Qed.

(** The registration of a new key whose upper-casing is another, unregistered
    key, when the fixings file exists: outcome, entries and series. *)
Lemma fixings_register_file_run E w key value rows :
  store_of IndexFixingsManager.ns w !! key = None ->
  Str.upper key ≠ key ->
  store_of IndexFixingsManager.ns w !! Str.upper key = None ->
  csv_rows E (Str.path_join (fixing_path E) (Str.lower key ++ ".csv")) = Some rows ->
  let w' := (IndexFixingsManager.register E key value w).2 in
  let l' := fresh (dom (heap w)) in
  (IndexFixingsManager.register E key value w).1
  = (if IndexFixingsManager.all_readable E rows then Ok tt
     else Raise MalformedRecord) /\
  store_of IndexFixingsManager.ns w' !! key = Some value /\
  match IndexFixingsManager.readable E rows with
  | [] => store_of IndexFixingsManager.ns w' !! Str.upper key = None /\
          heap w' = heap w
  | ps => store_of IndexFixingsManager.ns w' !! Str.upper key = Some (PDict l') /\
          heap w' !! l' = Some (IndexFixingsManager.assign_all ∅ ps)
  end /\
  (forall l0 d0, heap w !! l0 = Some d0 -> heap w' !! l0 = Some d0).
Proof.
  intros Hk Hup Hupk Hfile w' l'. subst w'.
  unfold IndexFixingsManager.register.
  erewrite bind_ok by (by apply register_fresh). rewrite Hfile.
  set (w1 := with_store IndexFixingsManager.ns _ w).
  assert (Hk1 : store_of IndexFixingsManager.ns w1 !! key = Some value).
  { subst w1. autorewrite with world. apply lookup_insert_eq. }
  assert (Hup1 : store_of IndexFixingsManager.ns w1 !! Str.upper key = None).
  { subst w1. autorewrite with world. by rewrite lookup_insert_ne. }
  assert (Hh1 : heap w1 = heap w) by done.
  clearbody w1.
  destruct rows as [|row rows]; [simpl; by rewrite Hh1|].
  simpl. destruct (IndexFixingsManager.read_line E row) as [p|] eqn:Hp.
  2: { rewrite bool_decide_eq_false_2 by (by intros [? ?]). simpl.
       erewrite bind_raise by (by apply load_line_malformed).
       simpl. by rewrite Hh1. }
  rewrite bool_decide_eq_true_2 by eauto. simpl.
  erewrite bind_ok by (by apply load_line_first).
  rewrite Hh1. fold l'.
  set (w2 := with_dict l' {[KDate p.1 := PFloat p.2]} _).
  destruct (load_existing E key l' rows w2 {[KDate p.1 := PFloat p.2]})
    as (w3 & Hrun & Hh & Hst & Hfr).
  { subst w2. autorewrite with world. apply lookup_insert_eq. }
  { subst w2. simpl. apply lookup_insert_eq. }
  rewrite Hrun. simpl. split; [done|].
  assert (Hstore3 : store_of IndexFixingsManager.ns w3
                    = <[Str.upper key := PDict l']> (store_of IndexFixingsManager.ns w1)).
  { transitivity (store_of IndexFixingsManager.ns w2);
      [unfold store_of; by rewrite Hst|].
    subst w2. by autorewrite with world. }
  split; [by rewrite Hstore3, lookup_insert_ne|].
  split; [split|].
  - by rewrite Hstore3, lookup_insert_eq.
  - rewrite Hh. unfold IndexFixingsManager.assign_all. simpl.
    by rewrite insert_empty.
  - intros l0 d0 Hl0.
    assert (l0 ≠ l') as Hne.
    { intros ->. by apply (fresh_loc_ne w l' d0). }
    rewrite (Hfr l0 Hne). subst w2. simpl.
    rewrite !lookup_insert_ne by done. by rewrite Hh1.
Qed.

(** X16: what [IndexFixingsManager.register] loads. For a new key with a
    lower-case letter whose upper-casing is not registered either, and a
    fixings file that exists: the call succeeds when every row can be read
    and fails with MalformedRecord at the first row that cannot; either way
    the key is registered, the rows before that one have been assigned in
    their order to a new series stored under the upper-cased key (no series
    is made when there is no such row), and every dict object that existed
    is as before. *)
Theorem fixings_register_loads_file E w key value rows :
  store_of IndexFixingsManager.ns w !! key = None ->
  Str.upper key ≠ key ->
  store_of IndexFixingsManager.ns w !! Str.upper key = None ->
  csv_rows E (Str.path_join (fixing_path E) (Str.lower key ++ ".csv")) = Some rows ->
  let w' := (IndexFixingsManager.register E key value w).2 in
  let l' := fresh (dom (heap w)) in
  (IndexFixingsManager.register E key value w).1
  = (if IndexFixingsManager.all_readable E rows then Ok tt
     else Raise MalformedRecord) /\
  store_of IndexFixingsManager.ns w' !! key = Some value /\
  match IndexFixingsManager.readable E rows with
  | [] => store_of IndexFixingsManager.ns w' !! Str.upper key = None /\
          heap w' = heap w
  | ps => store_of IndexFixingsManager.ns w' !! Str.upper key = Some (PDict l') /\
          heap w' !! l' = Some (IndexFixingsManager.assign_all ∅ ps)
  end /\
  (forall l0 d0, heap w !! l0 = Some d0 -> heap w' !! l0 = Some d0).
Proof.
  intros Hk Hup Hupk Hfile w' l'.
  destruct (fixings_register_file_run E w key value rows Hk Hup Hupk Hfile)
    as (Hresult & Hkey & Hseries & Hframe).
  split; [exact Hresult|]. split; [exact Hkey|].
  split; [exact Hseries|exact Hframe].
Qed.

Lemma fixings_register_loads_file_witness :
  (IndexFixingsManager.register Sample.env "sofr" PNone empty_world).1 = Ok tt /\
  store_of IndexFixingsManager.ns
    (IndexFixingsManager.register Sample.env "sofr" PNone empty_world).2 !! "sofr"
  = Some PNone.
Proof.
  pose proof (fixings_register_loads_file Sample.env empty_world "sofr" PNone
                Sample.sofr_csv) as H.
  destruct H as (Hr & Hk & _).
  - vm_compute. reflexivity.
  - discriminate.
  - vm_compute. reflexivity.
  - vm_compute. reflexivity.
  - split; [exact Hr | exact Hk].
Defined.

Lemma assign_all_keeps s qs d v :
  s !! KDate d = Some v ->
  d ∉ qs.*1 ->
  IndexFixingsManager.assign_all s qs !! KDate d = Some v.
Proof.
  revert s. induction qs as [|[d' x'] qs IH]; intros s Hs Hnot; [done|].
  unfold IndexFixingsManager.assign_all. simpl.
  apply IH.
  - rewrite lookup_insert_ne; [done|]. intros [= ->]. apply Hnot. simpl. left.
  - intros Hin. apply Hnot. simpl. by right.
Qed.

Lemma assign_all_last s ps d x qs :
  d ∉ qs.*1 ->
  IndexFixingsManager.assign_all s (ps ++ (d, x) :: qs)%list !! KDate d
  = Some (PFloat x).
Proof.
  intros Hnot. unfold IndexFixingsManager.assign_all. rewrite foldl_app. simpl.
  apply assign_all_keeps; [apply lookup_insert_eq|done].
Qed.

(** X17: in the fixings file the last row of a date wins. Under the
    conditions of X16, when the row of date [d] and fixing [x] is followed
    by no other readable row of that date, the series made by the
    registration holds [x] for [d], whatever rows of that date came before:
    the loop assigns, it does not keep the first value as [insert_fixing]
    does. *)
Theorem fixings_file_last_row_wins E w key value rows ps d x qs :
  store_of IndexFixingsManager.ns w !! key = None ->
  Str.upper key ≠ key ->
  store_of IndexFixingsManager.ns w !! Str.upper key = None ->
  csv_rows E (Str.path_join (fixing_path E) (Str.lower key ++ ".csv")) = Some rows ->
  IndexFixingsManager.readable E rows = (ps ++ (d, x) :: qs)%list ->
  d ∉ qs.*1 ->
  let w' := (IndexFixingsManager.register E key value w).2 in
  exists l',
    store_of IndexFixingsManager.ns w' !! Str.upper key = Some (PDict l') /\
    (py_getitem (PDict l') (KDate d) w').1 = Ok (PFloat x).
Proof.
  intros Hk Hup Hupk Hfile Hread Hnot w'.
  destruct (fixings_register_file_run E w key value rows Hk Hup Hupk Hfile)
    as (_ & _ & Hseries & _).
  rewrite Hread in Hseries.
  destruct (ps ++ (d, x) :: qs)%list as [|p rest] eqn:Hlist.
  { by destruct ps. }
  destruct Hseries as [Hreg Hl]. exists (fresh (dom (heap w))).
  split; [done|]. subst w'. erewrite getitem_run by done.
  rewrite <- Hlist. by rewrite assign_all_last.
Qed.

Lemma fixings_file_last_row_wins_witness :
  exists l',
    store_of IndexFixingsManager.ns
      (IndexFixingsManager.register Sample.env "sofr" PNone empty_world).2 !! "SOFR"
    = Some (PDict l') /\
    (py_getitem (PDict l') (KDate Sample.d2)
       (IndexFixingsManager.register Sample.env "sofr" PNone empty_world).2).1
    = Ok (PFloat Sample.f130).
Proof.
  apply (fixings_file_last_row_wins Sample.env empty_world "sofr" PNone
           Sample.sofr_csv [(Sample.d1, Sample.f125)] Sample.d2 Sample.f130 []).
  - vm_compute. reflexivity.
  - discriminate.
  - vm_compute. reflexivity.
  - vm_compute. reflexivity.
  - vm_compute. reflexivity.
  - simpl. apply not_elem_of_nil.
Defined.

(** ** IndexRegistry: the table of indices and the reverse lookup *)

(** The row of a key in the table, when [get] resolves the key to an index. *)
Lemma display_row_run ql_name w k :
  (index ← IndexRegistry.get k; IndexRegistry.py_index_name ql_name index) w
  = (match store_of IndexRegistry.ns w !! Str.upper k with
     | Some (PIndex i) => Ok (ql_name i)
     | Some _ => Raise TypeError
     | None => Raise NotFound
     end, w).
Proof.
  unfold mbind, M_bind. rewrite index_get_run.
  destruct (store_of IndexRegistry.ns w !! Str.upper k) as [v|]; [|done].
  by destruct v.
Qed.

(** The loop of [display_all_indices] over any list of keys. *)
Lemma display_all_indices_run ql_name w keys :
  (IndexRegistry.display_all_indices ql_name keys w).2 = w /\
  ((forall k, k ∈ keys ->
      exists i, store_of IndexRegistry.ns w !! Str.upper k = Some (PIndex i)) ->
   exists rows,
     (IndexRegistry.display_all_indices ql_name keys w).1 = Ok rows /\
     rows.*1 = keys /\
     (forall k n, (k, n) ∈ rows ->
        exists i, store_of IndexRegistry.ns w !! Str.upper k = Some (PIndex i)
                  /\ n = ql_name i)) /\
  (forall k, k ∈ keys ->
     (forall i, store_of IndexRegistry.ns w !! Str.upper k ≠ Some (PIndex i)) ->
     exists e, (IndexRegistry.display_all_indices ql_name keys w).1 = Raise e).
Proof.
  induction keys as [|k keys (IHw & IHok & IHerr)]; simpl.
  { split; [done|]. split.
    - intros _. exists []. split; [done|]. split; [done|].
      intros k n Hin. by apply elem_of_nil in Hin.
    - intros k Hin. by apply elem_of_nil in Hin. }
  pose proof (display_row_run ql_name w k) as Hrow.
  unfold mbind, M_bind in Hrow |- *.
  destruct (IndexRegistry.get k w) as [[index|e] w0] eqn:Hget.
  2: { injection Hrow as He ->. split; [done|]. split.
       - intros Hall. destruct (Hall k) as [i Hi]; [left|].
         rewrite Hi in He. discriminate.
       - intros; eauto. }
  destruct (IndexRegistry.py_index_name ql_name index w0) as [[name|e] w1] eqn:Hname.
  2: { injection Hrow as He ->. split; [done|]. split.
       - intros Hall. destruct (Hall k) as [i Hi]; [left|].
         rewrite Hi in He. discriminate.
       - intros; eauto. }
  injection Hrow as Hk ->.
  destruct (IndexRegistry.display_all_indices ql_name keys w) as [[rows|e] w2] eqn:Hrest;
    simpl in IHw; subst w2; simpl.
  - split; [done|]. split.
    + intros Hall. destruct IHok as (rows' & [= <-] & Hfst & Hrows).
      { intros k' Hk'. apply Hall. by right. }
      exists ((k, name) :: rows). split; [done|]. split; [by rewrite <- Hfst|].
      intros k' n Hin. apply elem_of_cons in Hin as [[= -> ->]|Hin]; [|eauto].
      destruct (Hall k) as [i Hi]; [left|]. rewrite Hi in Hk.
      injection Hk as Hk. eauto.
    + intros k' Hin Hno. apply elem_of_cons in Hin as [->|Hin].
      * destruct (store_of IndexRegistry.ns w !! Str.upper k) as [[]|];
          try discriminate. by destruct (Hno i).
      * destruct (IHerr k' Hin Hno) as [e He]. discriminate.
  - split; [done|]. split; [|eauto].
    intros Hall. destruct IHok as (rows' & Hr & _); [|discriminate].
    intros k' Hk'. apply Hall. by right.
Qed.

(** X18: [display_all_indices], for every order of the keys. It returns a
    table exactly when [get] resolves every key to an index object, and the
    table then has one row per key, in the order of the keys, with the name
    of the index found under the upper-cased key; otherwise it raises. It
    changes nothing. *)
Theorem display_all_indices_rows ql_name w keys :
  (IndexRegistry.display_all_indices ql_name keys w).2 = w /\
  ((forall k, k ∈ keys ->
      exists i, store_of IndexRegistry.ns w !! Str.upper k = Some (PIndex i)) ->
   exists rows,
     (IndexRegistry.display_all_indices ql_name keys w).1 = Ok rows /\
     rows.*1 = keys /\
     (forall k n, (k, n) ∈ rows ->
        exists i, store_of IndexRegistry.ns w !! Str.upper k = Some (PIndex i)
                  /\ n = ql_name i)) /\
  (forall k, k ∈ keys ->
     (forall i, store_of IndexRegistry.ns w !! Str.upper k ≠ Some (PIndex i)) ->
     exists e, (IndexRegistry.display_all_indices ql_name keys w).1 = Raise e).
Proof.
  destruct (display_all_indices_run ql_name w keys) as (Hworld & Hrows & Hraise).
  split; [exact Hworld|]. split; [exact Hrows|exact Hraise].
Qed.

Lemma display_all_indices_rows_witness :
  exists rows,
    (IndexRegistry.display_all_indices index_class ["sofr"; "SOFR"]
       (IndexRegistry.register Sample.env "sofr" (PStr "Sofr") empty_world).2).1
    = Ok rows /\
    rows.*1 = ["sofr"; "SOFR"].
Proof.
  destruct (proj1 (proj2
              (display_all_indices_rows index_class
                 (IndexRegistry.register Sample.env "sofr" (PStr "Sofr") empty_world).2
                 ["sofr"; "SOFR"]))) as (rows & Hr & Hfst & _).
  - intros k Hk. exists (mkIndex "Sofr" None).
    apply elem_of_cons in Hk as [->|Hk]; [vm_compute; reflexivity|].
    apply list_elem_of_singleton in Hk as ->. vm_compute. reflexivity.
  - exists rows. split; [exact Hr | exact Hfst].
Defined.

(** X19: the table after a registration by the branch of line 34. When a
    term index has been registered under a key that is not upper-case and
    whose upper-casing is not registered, [display_all_indices] raises for
    every enumeration of the keys that contains the key: the table of a
    registry in that state cannot be printed. *)
Theorem display_all_indices_fails_after_term_key E ql_name w key name i keys :
  store_of IndexRegistry.ns w !! key = None ->
  ql_hasattr E name = true ->
  ql_new E name = None ->
  is_term E (Str.last_segment key) = Some true ->
  ql_new_term E name (Str.last_segment key) = Some i ->
  Str.upper key ≠ key ->
  store_of IndexRegistry.ns w !! Str.upper key = None ->
  key ∈ keys ->
  let w' := (IndexRegistry.register E key (PStr name) w).2 in
  store_of IndexRegistry.ns w' !! key = Some (PIndex i) /\
  exists e, (IndexRegistry.display_all_indices ql_name keys w').1 = Raise e.
Proof.
  intros Hk Hknown Hnew Hterm Hnewt Hup Hupk Hin w'.
  assert (Hrun := index_register_term E w key name Hk Hknown i Hnew Hterm Hnewt).
  assert (Hs : store_of IndexRegistry.ns w'
               = <[key := PIndex i]> (store_of IndexRegistry.ns w)).
  { subst w'. rewrite Hrun. simpl. by autorewrite with world. }
  split; [by rewrite Hs, lookup_insert_eq|].
  apply (proj2 (proj2 (display_all_indices_run ql_name w' keys)) key Hin).
  intros j. rewrite Hs, lookup_insert_ne by done. by rewrite Hupk.
Qed.

Lemma display_all_indices_fails_after_term_key_witness :
  exists e,
    (IndexRegistry.display_all_indices index_class ["usd-libor-6M"]
       (IndexRegistry.register Sample.env "usd-libor-6M" (PStr "USDLibor")
          empty_world).2).1
    = Raise e.
Proof.
  refine (proj2 (display_all_indices_fails_after_term_key Sample.env index_class
                   empty_world "usd-libor-6M" "USDLibor"
                   (mkIndex "USDLibor" (Some "6M")) ["usd-libor-6M"]
                   _ _ _ _ _ _ _ _)); try (vm_compute; reflexivity).
  - discriminate.
  - left.
Defined.

(** X20: [look_up_index_name], for every order of the items. It returns the
    key of the first item whose index has the name of the given index, all
    items before it being indices with other names; it fails with NotFound
    when every item is an index with another name; and it raises when it
    meets, before any match, a stored value that is not an index object. It
    changes nothing. *)
Theorem look_up_index_name_first_match ql_name index items w :
  (IndexRegistry.look_up_index_name ql_name index items w).2 = w /\
  match (IndexRegistry.look_up_index_name ql_name index items w).1 with
  | Ok k =>
      exists i pre post,
        items = (pre ++ (k, PIndex i) :: post)%list /\
        ql_name i = ql_name index /\
        Forall (fun kv => exists j, kv.2 = PIndex j /\ ql_name j ≠ ql_name index) pre
  | Raise e =>
      (e = NotFound /\
       Forall (fun kv => exists j, kv.2 = PIndex j /\ ql_name j ≠ ql_name index) items)
      \/
      (e = TypeError /\
       exists pre kv post,
         items = (pre ++ kv :: post)%list /\
         (forall j, kv.2 ≠ PIndex j) /\
         Forall (fun kv => exists j, kv.2 = PIndex j /\ ql_name j ≠ ql_name index) pre)
  end.
Proof.
  induction items as [|[k v] items [IHw IH]]; simpl.
  { split; [done|]. left. split; [done|]. constructor. }
  unfold mbind, M_bind.
  destruct v as [| | | | |i| |];
    try (simpl; split; [done|]; right; split; [done|];
         eexists [], _, items; split; [done|]; split; [by intros j|constructor]).
  simpl. destruct (decide (ql_name index = ql_name i)) as [Heq|Hne].
  - rewrite bool_decide_eq_true_2 by done. simpl. split; [done|].
    exists i, [], items. split; [done|]. split; [done|constructor].
  - rewrite bool_decide_eq_false_2 by done. split; [done|].
    assert (Hhead : exists j, (k, PIndex i).2 = PIndex j /\ ql_name j ≠ ql_name index)
      by (exists i; split; [done|congruence]).
    destruct (IndexRegistry.look_up_index_name ql_name index items w) as [[k'|e] w0];
      simpl in IH |- *.
    + destruct IH as (i' & pre & post & -> & Hname & Hpre).
      exists i', ((k, PIndex i) :: pre), post. split; [done|]. split; [done|].
      by constructor.
    + destruct IH as [[-> Hall]|(-> & pre & kv & post & -> & Hkv & Hpre)].
      * left. split; [done|]. by constructor.
      * right. split; [done|]. exists ((k, PIndex i) :: pre), kv, post.
        split; [done|]. split; [done|]. by constructor.
Qed.

(** ** IndexFixingsManager: names that are lower-case already *)



(** X22: fixings kept in memory under a lower-case key. For a new key that
    is lower-case already and has no fixings file, registered with an empty
    dict: the registration succeeds, the dict is the series of the key,
    [insert_fixing] succeeds, and then [exist_fixing] is true and
    [get_fixing] returns the inserted value. The dict the caller passed is
    the object that holds the fixing. *)
Theorem fixings_in_memory_round_trip E w key l date fixing :
  Str.lower key = key ->
  csv_rows E (Str.path_join (fixing_path E) (key ++ ".csv")) = None ->
  store_of IndexFixingsManager.ns w !! key = None ->
  heap w !! l = Some ∅ ->
  let w1 := (IndexFixingsManager.register E key (PDict l) w).2 in
  let w2 := (IndexFixingsManager.insert_fixing key date fixing w1).2 in
  (IndexFixingsManager.register E key (PDict l) w).1 = Ok tt /\
  (IndexFixingsManager.exist_fixing key date w1).1 = Ok false /\
  (IndexFixingsManager.insert_fixing key date fixing w1).1 = Ok tt /\
  (IndexFixingsManager.exist_fixing key date w2).1 = Ok true /\
  (IndexFixingsManager.get_fixing key date w2).1 = Ok fixing /\
  heap w2 !! l = Some {[ KDate date := fixing ]}.
Proof.
  intros Hlow Hfile Hk Hl w1 w2.
  destruct (fixings_in_memory_lower_key E w key l date fixing Hlow Hfile Hk Hl)
    as (Hreg & Hins & Hget).
  fold w1 in Hins. fold w1 w2 in Hget.
  assert (Hrun : IndexFixingsManager.register E key (PDict l) w
                 = (Ok tt, with_store IndexFixingsManager.ns
                             (<[key := PDict l]> (store_of IndexFixingsManager.ns w)) w)).
  { unfold IndexFixingsManager.register.
    erewrite bind_ok by (by apply register_fresh). by rewrite Hlow, Hfile. }
  assert (Hs1 : store_of IndexFixingsManager.ns w1 !! Str.lower key = Some (PDict l)).
  { subst w1. rewrite Hrun. simpl. autorewrite with world.
    by rewrite Hlow, lookup_insert_eq. }
  assert (Hl1 : heap w1 !! l = Some ∅) by (subst w1; by rewrite Hrun).
  pose proof (insert_fixing_run w1 key date l ∅ Hs1 Hl1 fixing) as Hrun2.
  rewrite lookup_empty in Hrun2.
  assert (Hl2 : heap w2 !! l = Some {[ KDate date := fixing ]}).
  { subst w2. rewrite Hrun2. simpl. by rewrite lookup_insert_eq, insert_empty. }
  assert (Hs2 : store_of IndexFixingsManager.ns w2 !! Str.lower key = Some (PDict l)).
  { subst w2. by rewrite Hrun2. }
  split; [done|]. split.
  { rewrite (exist_fixing_run w1 key date l ∅ Hs1 Hl1). simpl.
    rewrite bool_decide_eq_false_2; [done|]. rewrite lookup_empty. by intros [? ?]. }
  split; [done|]. split; [|split; [done|done]].
  rewrite (exist_fixing_run w2 key date l _ Hs2 Hl2). simpl.
  rewrite bool_decide_eq_true_2; [done|]. rewrite lookup_singleton_eq. eauto.
Qed.

Lemma fixings_in_memory_round_trip_witness :
  let w1 := (IndexFixingsManager.register Sample.env_no_file "sofr" (PDict 1%positive)
               (Sample.one_dict ∅)).2 in
  (IndexFixingsManager.get_fixing "sofr" Sample.d1
     (IndexFixingsManager.insert_fixing "sofr" Sample.d1 (PFloat Sample.f125) w1).2).1
  = Ok (PFloat Sample.f125).
Proof.
  intros w1.
  refine (proj1 (proj2 (proj2 (proj2 (proj2
            (fixings_in_memory_round_trip Sample.env_no_file (Sample.one_dict ∅) "sofr"
               1%positive Sample.d1 (PFloat Sample.f125) _ _ _ _))))));
    vm_compute; reflexivity.
Defined.

(** X23: a key with an upper-case letter. Whatever value is registered and
    whatever the fixings file holds, when the lower-cased key is neither the
    key nor its upper-casing and is not registered, then after
    [register(key, value)] - successful or not - [exist_fixing],
    [get_fixing] and [insert_fixing] fail with NotFound for the key: the
    registration writes the key as given and its upper-casing, the readers
    look under its lower-casing. *)
Theorem fixings_of_upper_case_key_unreachable E key value w date :
  Str.lower key ≠ key ->
  Str.lower key ≠ Str.upper key ->
  store_of IndexFixingsManager.ns w !! Str.lower key = None ->
  let w' := (IndexFixingsManager.register E key value w).2 in
  store_of IndexFixingsManager.ns w' !! Str.lower key = None /\
  (IndexFixingsManager.exist_fixing key date w').1 = Raise NotFound /\
  (IndexFixingsManager.get_fixing key date w').1 = Raise NotFound /\
  (forall fixing,
     (IndexFixingsManager.insert_fixing key date fixing w').1 = Raise NotFound).
Proof.
  intros Hne Hup Hk w'. split.
  - subst w'.
    by rewrite (fixings_register_store E key value w _ _ (surjective_pairing _)
                  (Str.lower key) Hne Hup).
  - by apply fixings_of_mixed_case_key_not_found.
Qed.

Lemma fixings_of_upper_case_key_unreachable_witness :
  (IndexFixingsManager.get_fixing "Sofr" Sample.d1
     (IndexFixingsManager.register Sample.env "Sofr" PNone empty_world).2).1
  = Raise NotFound.
Proof.
  refine (proj1 (proj2 (proj2
            (fixings_of_upper_case_key_unreachable Sample.env "Sofr" PNone empty_world
               Sample.d1 _ _ _))));
    vm_compute; try reflexivity; discriminate.
Defined.
